(** * cc-manager: run orchestration, batched recording and the turn gate

    A shallow embedding of [src/core/stream-recorder.ts],
    [src/core/executor.ts], [src/core/run-manager.ts] and
    [src/core/webhook.ts], with the properties of the design document
    stated over it.

    Conventions.
    - Strings are Rocq strings; [trim] is modelled on ASCII white space.
    - [JSON.stringify (x)] is kept as the value [x] it serialises
      ([getMessages] parses it back), see [Json].
    - [Date.now ()] reads the [clock] of the host; run ids
      ([crypto.randomUUID ()]) are supplied by the environment.
    - An [async] function is cut at the points where it waits for the
      provider ([reader.read ()], the sink's [write]); the database calls
      of bun:sqlite complete inside the segment that issues them. *)

From stdpp Require Import gmap strings list sorting.
From Stdlib Require Import ZArith Lia.

(** ** Data model ([src/types.ts], [src/db/schema.ts], [src/errors.ts]) *)

Inductive RunMode := ModeFresh | ModeResume | ModeFork.
Inductive RunStatus := StatusRunning | StatusCompleted | StatusError | StatusCancelled.

#[global] Instance RunMode_eq_dec : EqDecision RunMode.
Proof. solve_decision. Defined.
#[global] Instance RunStatus_eq_dec : EqDecision RunStatus.
Proof. solve_decision. Defined.

(** The fields of an [SDKMessage] the core looks at; the rest of the
    message is [body]. *)
Record SDKMessage := mkMessage {
  type : string;
  subtype : option string;
  session_id : string;
  body : string
}.

#[global] Instance SDKMessage_eq_dec : EqDecision SDKMessage.
Proof. solve_decision. Defined.

(** The two documents the orchestrator serialises into [resultJson]:
    [JSON.stringify (resultMessage)] and
    [JSON.stringify ({ error: errorMessage })]. *)
Inductive Json :=
| JsonMessage (m : SDKMessage)
| JsonError (error : string).

(** A row of [ccr_runs]. *)
Record Run := mkRun {
  run_id : string;
  run_cwd : string;
  run_sessionId : string;
  run_parentSessionId : option string;
  run_mode : RunMode;
  run_status : RunStatus;
  run_prompt : string;
  run_resultType : option string;
  run_resultJson : option Json;
  run_durationMs : option Z;
  run_createdAt : option Z
}.

(** A row of [ccr_run_messages] as the recorder builds it
    ([NewRunMessage]; the auto-increment [id] is the row's position). *)
Record NewRunMessage := mkRunMessage {
  rm_runId : string;
  rm_index : nat;
  rm_messageType : string;
  rm_messageJson : SDKMessage;
  rm_createdAt : Z
}.

(** The object of a [.set ({ ... })]: [None] is a key that is absent or
    [undefined] (the column is left alone). *)
Record RunPatch := mkPatch {
  set_sessionId : option string;
  set_status : option RunStatus;
  set_resultType : option string;
  set_resultJson : option (option Json);
  set_durationMs : option Z
}.

Inductive ServiceError :=
| SessionNotFoundError (sessionId : string)
| RunNotFoundError (runId : string)
| RunAlreadyCompletedError (runId : string)
| ValidationError (message : string) (field : string)
| ExecutionError (message : string)
| RunCancelledError (runId : string).

Record ImageAttachment := mkImage { mediaType : string; data : string }.

Record StartParams := mkStart {
  sp_cwd : string;
  sp_prompt : string;
  sp_images : list ImageAttachment;
  sp_options : list (string * string);
  sp_webhookUrl : option string
}.

(** [ResumeParams] and [ForkParams] have the same shape. *)
Record SessionParams := mkSessionParams {
  rp_sessionId : string;
  rp_prompt : string;
  rp_images : list ImageAttachment;
  rp_options : list (string * string);
  rp_webhookUrl : option string
}.

(** [ActiveRun]; [ar_aborted] is the state of its [abortController]. *)
Record ActiveRun := mkActive {
  ar_runId : string;
  ar_sessionId : string;
  ar_mode : RunMode;
  ar_status : RunStatus;
  ar_startedAt : Z;
  ar_aborted : bool;
  ar_webhookUrl : option string
}.

Record RunResult := mkResult {
  res_runId : string;
  res_sessionId : string;
  res_parentSessionId : option string;
  res_mode : RunMode;
  res_status : RunStatus;
  res_durationMs : Z;
  res_result : option SDKMessage;
  res_error : option string
}.

(** What a pending promise settles to. *)
Inductive Outcome := Resolved | Rejected (reason : string).

(** What a read of a [ReadableStream<SDKMessage>] settles to. *)
Inductive ReadResult :=
| RChunk (message : SDKMessage)
| RDone
| RError (reason : string).

(** ** The persistence collaborator ([src/db]) *)

Inductive Statement :=
| InsertRun (row : Run)
| UpdateRun (id : string) (patch : RunPatch)
| InsertMessages (rows : list NewRunMessage) (outcome : Outcome).

(** [insertFaults] scripts the next inserts into [ccr_run_messages]:
    [Some e] makes the insert throw [e], [None] (or an exhausted script)
    lets it succeed.  [journal] lists the writes issued, oldest first. *)
Record Db := mkDb {
  runTable : list Run;
  runMessageTable : list NewRunMessage;
  insertFaults : list (option string);
  journal : list Statement
}.

Definition applyPatch (p : RunPatch) (r : Run) : Run :=
  {| run_id := run_id r;
     run_cwd := run_cwd r;
     run_sessionId := default (run_sessionId r) (set_sessionId p);
     run_parentSessionId := run_parentSessionId r;
     run_mode := run_mode r;
     run_status := default (run_status r) (set_status p);
     run_prompt := run_prompt r;
     run_resultType :=
       match set_resultType p with Some t => Some t | None => run_resultType r end;
     run_resultJson := default (run_resultJson r) (set_resultJson p);
     run_durationMs :=
       match set_durationMs p with Some d => Some d | None => run_durationMs r end;
     run_createdAt := run_createdAt r |}.

(** [db.insert (runTable).values (row)] *)
Definition insertRun (row : Run) (d : Db) : Db :=
  {| runTable := runTable d ++ [row];
     runMessageTable := runMessageTable d;
     insertFaults := insertFaults d;
     journal := journal d ++ [InsertRun row] |}.

(** [db.update (runTable).set (patch).where (eq (runTable.id, id))] *)
Definition updateRun (id : string) (p : RunPatch) (d : Db) : Db :=
  {| runTable :=
       map (fun r => if decide (run_id r = id) then applyPatch p r else r) (runTable d);
     runMessageTable := runMessageTable d;
     insertFaults := insertFaults d;
     journal := journal d ++ [UpdateRun id p] |}.

(** [db.select ().from (runTable).where (eq (runTable.sessionId, s)).limit (1)],
    then [sessionRuns[0]]. *)
Definition selectRunBySession (s : string) (d : Db) : option Run :=
  head (filter (fun r => run_sessionId r = s) (runTable d)).

(** [db.select ().from (runTable).where (eq (runTable.id, id)).limit (1)]
    ([getRun]). *)
Definition getRun (id : string) (d : Db) : option Run :=
  head (filter (fun r => run_id r = id) (runTable d)).

(** [db.insert (runMessageTable).values (rows)]: one atomic multi-row
    insert, which the fault script may make throw. *)
Definition insertMessages (rows : list NewRunMessage) (d : Db) : Outcome * Db :=
  match insertFaults d with
  | Some e :: rest =>
      (Rejected e,
       {| runTable := runTable d;
          runMessageTable := runMessageTable d;
          insertFaults := rest;
          journal := journal d ++ [InsertMessages rows (Rejected e)] |})
  | ok =>
      (Resolved,
       {| runTable := runTable d;
          runMessageTable := runMessageTable d ++ rows;
          insertFaults := tail ok;
          journal := journal d ++ [InsertMessages rows Resolved] |})
  end.

(** The services of the runtime a segment of code reaches: the database,
    the console and logger, and the clock. *)
Record Host := mkHost {
  db : Db;
  logs : list string;
  clock : Z
}.

Definition withDb (d : Db) (h : Host) : Host :=
  {| db := d; logs := logs h; clock := clock h |}.

Definition logLine (line : string) (h : Host) : Host :=
  {| db := db h; logs := logs h ++ [line]; clock := clock h |}.

(** ** The batched recorder ([src/core/stream-recorder.ts]) *)

Module StreamRecorder.

(** The variables [createSink] closes over.  [flushTimer] tells whether
    the variable holds a timer handle; [timerLive] whether the runtime
    still has that timeout scheduled ([clearTimeout] and the firing of
    the timeout end it without touching the variable).  A scheduled
    timeout may fire at any moment: [flushIntervalMs] is left to the
    runtime. *)
Record Sink := mkSink {
  index : nat;
  batch : list NewRunMessage;
  flushTimer : bool;
  timerLive : bool
}.

(** [let index = 0; let batch = []; let flushTimer = null] *)
Definition createSink : Sink :=
  {| index := 0; batch := []; flushTimer := false; timerLive := false |}.

Definition defaultBatchSize : Z := 50.

(** [const flush = async () => ...] *)
Definition flush (s : Sink) (h : Host) : Outcome * Sink * Host :=
  match batch s with
  | [] => (Resolved, s, h)
  | toInsert =>
      let s' :=
        {| index := index s;
           batch := [];
           flushTimer := false;
           timerLive := if flushTimer s then false else timerLive s |} in
      let '(o, d) := insertMessages toInsert (db h) in
      (o, s', withDb d h)
  end.

(** [const scheduleFlush = () => ...] *)
Definition scheduleFlush (s : Sink) : Sink :=
  if flushTimer s then s
  else {| index := index s; batch := batch s; flushTimer := true; timerLive := true |}.

(** The callback handed to [setTimeout]: [flush ().catch (console.error)]. *)
Definition onTimeout (s : Sink) (h : Host) : Sink * Host :=
  let s0 :=
    {| index := index s; batch := batch s; flushTimer := flushTimer s; timerLive := false |} in
  match flush s0 h with
  | (Resolved, s', h') => (s', h')
  | (Rejected e, s', h') => (s', logLine ("[StreamRecorder] Flush error: " ++ e) h')
  end.

(** [async write (message)] *)
Definition write (runId : string) (batchSize : Z) (message : SDKMessage)
    (s : Sink) (h : Host) : Outcome * Sink * Host :=
  let record :=
    {| rm_runId := runId;
       rm_index := index s;
       rm_messageType := type message;
       rm_messageJson := message;
       rm_createdAt := clock h |} in
  let s' :=
    {| index := S (index s);
       batch := batch s ++ [record];
       flushTimer := flushTimer s;
       timerLive := timerLive s |} in
  if (batchSize <=? Z.of_nat (length (batch s')))%Z
  then flush s' h
  else (Resolved, scheduleFlush s', h).

(** [async close ()] *)
Definition close (s : Sink) (h : Host) : Outcome * Sink * Host := flush s h.

(** [async abort (reason)] *)
Definition abort (reason : string) (s : Sink) (h : Host) : Outcome * Sink * Host :=
  let s0 :=
    {| index := index s;
       batch := batch s;
       flushTimer := flushTimer s;
       timerLive := if flushTimer s then false else timerLive s |} in
  match flush s0 h with
  | (Resolved, s', h') => (Resolved, s', logLine ("[StreamRecorder] Sink aborted: " ++ reason) h')
  | r => r
  end.

(** *** The sink behind a [WritableStream], fed by [pipeTo]

    [recordBranch.pipeTo (createSink (runId)).catch (log.error)] in
    [processStream].  The stream's part is the one of the Streams
    standard: chunks are written one at a time; a rejected [write] or
    [close] errors the stream, after which the sink is called no more and
    [pipeTo] rejects; an errored source aborts the sink and [pipeTo]
    rejects with the source's error, or with the error of the [abort] if
    that rejects; the [.catch] of [processStream] logs the rejection. *)

Inductive StreamState := Writable | Closed | Errored.

#[global] Instance StreamState_eq_dec : EqDecision StreamState.
Proof. solve_decision. Defined.

Record Pipe := mkPipe {
  pipe_runId : string;
  pipe_batchSize : Z;
  pipe_state : StreamState;
  pipe_sink : Sink
}.

(** [StreamRecorder.createSink (runId)] with its default options, or with
    [{ batchSize }]. *)
Definition openPipe (runId : string) (batchSize : Z) : Pipe :=
  {| pipe_runId := runId; pipe_batchSize := batchSize;
     pipe_state := Writable; pipe_sink := createSink |}.

Definition setPipe (st : StreamState) (s : Sink) (p : Pipe) : Pipe :=
  {| pipe_runId := pipe_runId p; pipe_batchSize := pipe_batchSize p;
     pipe_state := st; pipe_sink := s |}.

Definition recordingError (e : string) : string := "Recording error: " ++ e.

(** [pipeTo] hands the next item of the record branch to the sink. *)
Definition deliver (r : ReadResult) (p : Pipe) (h : Host) : Pipe * Host :=
  match pipe_state p with
  | Writable =>
      match r with
      | RChunk m =>
          match write (pipe_runId p) (pipe_batchSize p) m (pipe_sink p) h with
          | (Resolved, s, h') => (setPipe Writable s p, h')
          | (Rejected e, s, h') => (setPipe Errored s p, logLine (recordingError e) h')
          end
      | RDone =>
          match close (pipe_sink p) h with
          | (Resolved, s, h') => (setPipe Closed s p, h')
          | (Rejected e, s, h') => (setPipe Errored s p, logLine (recordingError e) h')
          end
      | RError reason =>
          match abort reason (pipe_sink p) h with
          | (Resolved, s, h') => (setPipe Errored s p, logLine (recordingError reason) h')
          | (Rejected e, s, h') => (setPipe Errored s p, logLine (recordingError e) h')
          end
      end
  | _ => (p, h)
  end.

(** The timeout of the sink fires, if one is scheduled. *)
Definition timerFires (p : Pipe) (h : Host) : Pipe * Host :=
  if timerLive (pipe_sink p)
  then let '(s, h') := onTimeout (pipe_sink p) h in (setPipe (pipe_state p) s p, h')
  else (p, h).

(** What happens to one recorder: the record branch yields its next item,
    the timeout fires, or time passes. *)
Inductive PipeEvent :=
| Deliver (r : ReadResult)
| Timeout
| Elapse (ms : Z).

Definition pipeStep (ph : Pipe * Host) (e : PipeEvent) : Pipe * Host :=
  match e with
  | Deliver r => deliver r ph.1 ph.2
  | Timeout => timerFires ph.1 ph.2
  | Elapse ms =>
      (ph.1, {| db := db ph.2; logs := logs ph.2; clock := (clock ph.2 + ms)%Z |})
  end.

Definition pipeRun (es : list PipeEvent) (ph : Pipe * Host) : Pipe * Host :=
  foldl pipeStep ph es.

(** The batches handed to [db.insert (runMessageTable)], oldest first,
    whatever became of the insert. *)
Definition handed (d : Db) : list (list NewRunMessage) :=
  omap (fun st => match st with InsertMessages rows _ => Some rows | _ => None end)
       (journal d).

(** The messages among a list of events. *)
Definition chunksOf (es : list PipeEvent) : list SDKMessage :=
  omap (fun e => match e with Deliver (RChunk m) => Some m | _ => None end) es.

End StreamRecorder.

(** ** The turn gate ([src/core/executor.ts]) *)

Module Executor.

Inductive ContentBlock :=
| TextBlock (text : string)
| ImageBlock (media_type : string) (data : string).

(** [sdkUserMessage]: [type: 'user'], [role: 'user'],
    [parent_tool_use_id: null] and a random [session_id] are constant or
    unused; the content blocks are what varies. *)
Record SDKUserMessage := mkUserMessage { content : list ContentBlock }.

Record ExecuteParams := mkExecute {
  ep_cwd : string;
  ep_prompt : string;
  ep_images : list ImageAttachment;
  ep_options : list (string * string);
  ep_sessionId : option string;
  ep_abortController : option string
}.

(** [sdkOptions]: the caller's options, then the four keys [execute]
    sets.  The abort controller is named by the run it belongs to. *)
Record Options := mkOptions {
  o_rest : list (string * string);
  o_cwd : string;
  o_forkSession : bool;
  o_resume : option string;
  o_abortController : option string
}.

(** The argument of [query ({ prompt, options })]. *)
Record Query := mkQuery { q_prompt : SDKUserMessage; q_options : Options }.

(** Where the body of the prompt generator
    [async function* () { yield sdkUserMessage; await receivedResult; }]
    stands. *)
Inductive PromptState :=
| NotStarted
| AtYield
| AtAwait
| Finished.

Inductive Controller :=
| Open
| CtlClosed
| CtlErrored (error : string).

(** What the provider's side and the consumer's side can observe. *)
Inductive GateEvent :=
| InputMessage (m : SDKUserMessage)
| InputEnd
| Pulled (value : option SDKMessage) (isDone : bool).

(** One call of [execute]: the promise [receivedResult], the prompt
    generator, the controller of the returned [ReadableStream]. *)
Record Gate := mkGate {
  userMessage : SDKUserMessage;
  receivedResult : bool;
  promptState : PromptState;
  controller : Controller;
  history : list GateEvent
}.

(** What [await sdkStream.next ()] gives [pull]. *)
Inductive NextResult :=
| Settled (value : option SDKMessage) (isDone : bool)
| Threw (error : string).

Definition buildContent (prompt : string) (images : list ImageAttachment) : list ContentBlock :=
  TextBlock prompt :: map (fun img => ImageBlock (mediaType img) (data img)) images.

(** [execute (params)] up to the [return new ReadableStream]. *)
Definition execute (params : ExecuteParams) : Gate * Query :=
  let sdkUserMessage := {| content := buildContent (ep_prompt params) (ep_images params) |} in
  let sdkOptions :=
    {| o_rest := ep_options params;
       o_cwd := ep_cwd params;
       o_forkSession := true;
       o_resume := ep_sessionId params;
       o_abortController := ep_abortController params |} in
  ({| userMessage := sdkUserMessage;
      receivedResult := false;
      promptState := NotStarted;
      controller := Open;
      history := [] |},
   {| q_prompt := sdkUserMessage; q_options := sdkOptions |}).

Definition executeFresh (params : StartParams) (abortController : option string) : Gate * Query :=
  execute {| ep_cwd := sp_cwd params; ep_prompt := sp_prompt params;
             ep_images := sp_images params; ep_options := sp_options params;
             ep_sessionId := None; ep_abortController := abortController |}.

Definition executeResume (params : SessionParams) (cwd : string)
    (abortController : option string) : Gate * Query :=
  execute {| ep_cwd := cwd; ep_prompt := rp_prompt params;
             ep_images := rp_images params; ep_options := rp_options params;
             ep_sessionId := Some (rp_sessionId params);
             ep_abortController := abortController |}.

Definition executeFork (params : SessionParams) (cwd : string)
    (abortController : option string) : Gate * Query :=
  execute {| ep_cwd := cwd; ep_prompt := rp_prompt params;
             ep_images := rp_images params; ep_options := rp_options params;
             ep_sessionId := Some (rp_sessionId params);
             ep_abortController := abortController |}.

Definition observe (e : GateEvent) (st : PromptState) (g : Gate) : Gate :=
  {| userMessage := userMessage g;
     receivedResult := receivedResult g;
     promptState := st;
     controller := controller g;
     history := history g ++ [e] |}.

Definition moveTo (st : PromptState) (g : Gate) : Gate :=
  {| userMessage := userMessage g;
     receivedResult := receivedResult g;
     promptState := st;
     controller := controller g;
     history := history g |}.

(** The provider asks the prompt generator for its next input
    ([next ()]): the first request runs the body to the [yield], the
    second resumes it into [await receivedResult], where it stays until
    the promise is resolved; the body then returns, which is the end of
    the input. *)
Definition promptNext (g : Gate) : Gate :=
  match promptState g with
  | NotStarted => observe (InputMessage (userMessage g)) AtYield g
  | AtYield => if receivedResult g then observe InputEnd Finished g else moveTo AtAwait g
  | AtAwait => g
  | Finished => g
  end.

(** [done ()]: resolves [receivedResult]; a generator waiting on it
    resumes and returns. *)
Definition done (g : Gate) : Gate :=
  let g' :=
    {| userMessage := userMessage g;
       receivedResult := true;
       promptState := promptState g;
       controller := controller g;
       history := history g |} in
  match promptState g with
  | AtAwait => observe InputEnd Finished g'
  | _ => g'
  end.

Definition setController (c : Controller) (g : Gate) : Gate :=
  {| userMessage := userMessage g;
     receivedResult := receivedResult g;
     promptState := promptState g;
     controller := c;
     history := history g |}.

Definition isResult (value : option SDKMessage) : bool :=
  match value with
  | Some m => bool_decide (type m = "result")
  | None => false
  end.

(** [async pull (controller)], once [sdkStream.next ()] has settled to
    [r].  The second component is what the stream hands its readers:
    an enqueued chunk, the close, the error, or nothing. *)
Definition pull (r : NextResult) (g : Gate) (h : Host) : Gate * option ReadResult * Host :=
  match controller g with
  | Open =>
      match r with
      | Settled value isDone =>
          let g0 := observe (Pulled value isDone) (promptState g) g in
          let g1 := if isResult value then done g0 else g0 in
          if isDone then (setController CtlClosed g1, Some RDone, h)
          else match value with
               | Some v => (g1, Some (RChunk v), h)
               | None => (g1, None, h)
               end
      | Threw error =>
          (setController (CtlErrored error) g, Some (RError error),
           logLine ("[Executor] Stream error: " ++ error) h)
      end
  | _ => (g, None, h)
  end.

(** What can happen to a gate. *)
Inductive GateStep :=
| ProviderAsksInput
| ProviderAnswers (r : NextResult).

Definition gateStep (gh : Gate * Host) (e : GateStep) : Gate * Host :=
  match e with
  | ProviderAsksInput => (promptNext gh.1, gh.2)
  | ProviderAnswers r => let '(g, _, h) := pull r gh.1 gh.2 in (g, h)
  end.

Definition gateRun (es : list GateStep) (gh : Gate * Host) : Gate * Host :=
  foldl gateStep gh es.

(** The event at position [i] of a history is the end of the input. *)
Definition endsInputAt (i : nat) (hist : list GateEvent) : Prop :=
  hist !! i = Some InputEnd.

(** A message of type ['result'] was pulled at position [j]. *)
Definition resultPulledAt (j : nat) (hist : list GateEvent) : Prop :=
  exists m isDone, hist !! j = Some (Pulled (Some m) isDone) /\ type m = "result".

End Executor.

(** ** The lifecycle notifier ([src/core/webhook.ts]) *)

Module Webhook.

Inductive WebhookEventType := RunStarted | RunCompleted | RunFailed | RunErrored.

Inductive WebhookPayload :=
| RunStartedPayload (mode : RunMode) (cwd : string)
| RunCompletedPayload (durationMs : Z) (result : option string)
| RunFailedPayload (subtype : string) (durationMs : Z) (error : string)
| RunErrorPayload (code : string) (message : string).

Record WebhookEvent := mkEvent {
  event : WebhookEventType;
  runId : string;
  sessionId : string;
  timestamp : Z;
  payload : WebhookPayload
}.

Definition WEBHOOK_TIMEOUT_MS : Z := 10000.

(** [dispatchWebhook (url, event)]: hands one POST to the runtime and
    returns; [outbox] lists the requests handed over. *)
Definition dispatchWebhook (url : string) (e : WebhookEvent)
    (outbox : list (string * WebhookEvent)) : list (string * WebhookEvent) :=
  outbox ++ [(url, e)].

End Webhook.

(** ** The run orchestrator ([src/core/run-manager.ts]) *)

Module RunManager.

Import Executor StreamRecorder.

(** The locals of one call of [start], [resume] or [fork] that is
    waiting in the loop of [processStream]. *)
Record Flight := mkFlight {
  fl_runId : string;
  fl_mode : RunMode;
  fl_parentSessionId : option string;
  fl_startTime : Z;
  fl_stream : Gate;
  fl_capturedSessionId : string;
  fl_resultMessage : option SDKMessage
}.

(** The process.  [heap] holds the [ActiveRun] objects, addressed by the
    run they were made for; [activeRuns] is the module's [Map], whose
    entry for a run id refers to that object, so that an object taken
    out of the map is still the one its call reads and writes.
    [flights] holds the calls that wait for the provider.  [recorders]
    holds, per run, the items teed into the record branch and not yet
    taken by [pipeTo], and the sink.  The rest is what the process has
    given out: the results calls returned ([settled]), the errors calls
    threw ([rejected]), the arguments of the calls of [query]
    ([queries]) and the requests handed to [dispatchWebhook]
    ([webhooks]). *)
Record World := mkWorld {
  host : Host;
  heap : gmap string ActiveRun;
  activeRuns : gset string;
  flights : gmap string Flight;
  recorders : gmap string (list ReadResult * Pipe);
  settled : list RunResult;
  rejected : list ServiceError;
  queries : list Query;
  webhooks : list (string * Webhook.WebhookEvent)
}.

Definition setHost (h : Host) (w : World) : World :=
  {| host := h; heap := heap w; activeRuns := activeRuns w; flights := flights w;
     recorders := recorders w; settled := settled w; rejected := rejected w;
     queries := queries w; webhooks := webhooks w |}.

Definition setHeap (hp : gmap string ActiveRun) (w : World) : World :=
  {| host := host w; heap := hp; activeRuns := activeRuns w; flights := flights w;
     recorders := recorders w; settled := settled w; rejected := rejected w;
     queries := queries w; webhooks := webhooks w |}.

Definition setActiveRuns (a : gset string) (w : World) : World :=
  {| host := host w; heap := heap w; activeRuns := a; flights := flights w;
     recorders := recorders w; settled := settled w; rejected := rejected w;
     queries := queries w; webhooks := webhooks w |}.

Definition setFlights (fs : gmap string Flight) (w : World) : World :=
  {| host := host w; heap := heap w; activeRuns := activeRuns w; flights := fs;
     recorders := recorders w; settled := settled w; rejected := rejected w;
     queries := queries w; webhooks := webhooks w |}.

Definition setRecorders (rs : gmap string (list ReadResult * Pipe)) (w : World) : World :=
  {| host := host w; heap := heap w; activeRuns := activeRuns w; flights := flights w;
     recorders := rs; settled := settled w; rejected := rejected w;
     queries := queries w; webhooks := webhooks w |}.

Definition resolve (r : RunResult) (w : World) : World :=
  {| host := host w; heap := heap w; activeRuns := activeRuns w; flights := flights w;
     recorders := recorders w; settled := settled w ++ [r]; rejected := rejected w;
     queries := queries w; webhooks := webhooks w |}.

Definition reject (e : ServiceError) (w : World) : World :=
  {| host := host w; heap := heap w; activeRuns := activeRuns w; flights := flights w;
     recorders := recorders w; settled := settled w; rejected := rejected w ++ [e];
     queries := queries w; webhooks := webhooks w |}.

Definition addQuery (q : Query) (w : World) : World :=
  {| host := host w; heap := heap w; activeRuns := activeRuns w; flights := flights w;
     recorders := recorders w; settled := settled w; rejected := rejected w;
     queries := queries w ++ [q]; webhooks := webhooks w |}.

Definition setDb (d : Db) (w : World) : World := setHost (withDb d (host w)) w.

Definition logW (line : string) (w : World) : World := setHost (logLine line (host w)) w.

(** A process that has just started. *)
Definition boot (now : Z) (faults : list (option string)) : World :=
  {| host := {| db := {| runTable := []; runMessageTable := [];
                         insertFaults := faults; journal := [] |};
                logs := []; clock := now |};
     heap := ∅; activeRuns := ∅; flights := ∅; recorders := ∅;
     settled := []; rejected := []; queries := []; webhooks := [] |}.

(** [activeRuns.get (runId)] *)
Definition getActiveRun (runId : string) (w : World) : option ActiveRun :=
  if decide (runId ∈ activeRuns w) then heap w !! runId else None.

(** White space that [trim] removes, among the ASCII characters. *)
Definition isSpace (c : Ascii.ascii) : bool :=
  let n := Ascii.nat_of_ascii c in
  (Nat.leb 9 n && Nat.leb n 13) || Nat.eqb n 32.

(** [!s || s.trim ().length === 0] *)
Fixpoint blank (s : string) : bool :=
  match s with
  | EmptyString => true
  | String c rest => isSpace c && blank rest
  end.

(** What a call fixes before it reaches the provider: [runId], [mode],
    [parentSessionId] and [startTime]. *)
Record Call := mkCall {
  c_runId : string;
  c_mode : RunMode;
  c_parentSessionId : option string;
  c_startTime : Z
}.

Definition callOf (f : Flight) : Call :=
  {| c_runId := fl_runId f; c_mode := fl_mode f;
     c_parentSessionId := fl_parentSessionId f; c_startTime := fl_startTime f |}.

Definition isInit (m : SDKMessage) : bool :=
  bool_decide (type m = "system") && bool_decide (subtype m = Some "init").

Definition setSessionId (s : string) (a : ActiveRun) : ActiveRun :=
  {| ar_runId := ar_runId a; ar_sessionId := s; ar_mode := ar_mode a;
     ar_status := ar_status a; ar_startedAt := ar_startedAt a;
     ar_aborted := ar_aborted a; ar_webhookUrl := ar_webhookUrl a |}.

Definition sessionPatch (s : string) : RunPatch :=
  {| set_sessionId := Some s; set_status := None; set_resultType := None;
     set_resultJson := None; set_durationMs := None |}.

(** The body of the loop of [processStream] for one message. *)
Definition loopBody (m : SDKMessage) (f : Flight) (w : World) : Flight * World :=
  let '(captured, w1) :=
    if isInit m
    then (session_id m,
          setDb (updateRun (fl_runId f) (sessionPatch (session_id m)) (db (host w)))
                (setHeap (alter (setSessionId (session_id m)) (fl_runId f) (heap w)) w))
    else (fl_capturedSessionId f, w) in
  ({| fl_runId := fl_runId f; fl_mode := fl_mode f;
      fl_parentSessionId := fl_parentSessionId f; fl_startTime := fl_startTime f;
      fl_stream := fl_stream f;
      fl_capturedSessionId := captured;
      fl_resultMessage :=
        if bool_decide (type m = "result") then Some m else fl_resultMessage f |},
   w1).

(** The loop of [processStream] over the messages its branch hands it,
    up to the end of the stream. *)
Definition processStream (ms : list SDKMessage) (f : Flight) (w : World) : Flight * World :=
  foldl (fun fw m => loopBody m fw.1 fw.2) (f, w) ms.

(** [resultMessage && resultMessage.subtype?.startsWith ('error')] *)
Definition isError (resultMessage : option SDKMessage) : bool :=
  match resultMessage with
  | Some m =>
      match subtype m with
      | Some s => String.prefix "error" s
      | None => false
      end
  | None => false
  end.

(** After [processStream] has returned: the rest of the [try] block. *)
Definition complete (f : Flight) (w : World) : RunResult * World :=
  let durationMs := (clock (host w) - fl_startTime f)%Z in
  let status := if isError (fl_resultMessage f) then StatusError else StatusCompleted in
  let w1 :=
    setDb (updateRun (fl_runId f)
             {| set_sessionId := None;
                set_status := Some status;
                set_resultType := fl_resultMessage f ≫= subtype;
                set_resultJson := Some (JsonMessage <$> fl_resultMessage f);
                set_durationMs := Some durationMs |}
             (db (host w))) w in
  let w2 := setActiveRuns (activeRuns w1 ∖ {[fl_runId f]}) w1 in
  let w3 := logW "Run completed" w2 in
  ({| res_runId := fl_runId f;
      res_sessionId := fl_capturedSessionId f;
      res_parentSessionId := fl_parentSessionId f;
      res_mode := fl_mode f;
      res_status := status;
      res_durationMs := durationMs;
      res_result := fl_resultMessage f;
      res_error := None |},
   w3).

(** The [catch] block, entered with the message of what was thrown. *)
Definition failed (errorMessage : string) (c : Call) (w : World) : RunResult * World :=
  let durationMs := (clock (host w) - c_startTime c)%Z in
  let w1 := logW ("Run failed: " ++ errorMessage) w in
  let w2 :=
    setDb (updateRun (c_runId c)
             {| set_sessionId := None;
                set_status := Some StatusError;
                set_resultType := None;
                set_resultJson := Some (Some (JsonError errorMessage));
                set_durationMs := Some durationMs |}
             (db (host w1))) w1 in
  let w3 := setActiveRuns (activeRuns w2 ∖ {[c_runId c]}) w2 in
  ({| res_runId := c_runId c;
      res_sessionId := default "" (ar_sessionId <$> heap w3 !! c_runId c);
      res_parentSessionId := c_parentSessionId c;
      res_mode := c_mode c;
      res_status := StatusError;
      res_durationMs := durationMs;
      res_result := None;
      res_error := Some errorMessage |},
   w3).

Definition setStream (g : Gate) (f : Flight) : Flight :=
  {| fl_runId := fl_runId f; fl_mode := fl_mode f;
     fl_parentSessionId := fl_parentSessionId f; fl_startTime := fl_startTime f;
     fl_stream := g; fl_capturedSessionId := fl_capturedSessionId f;
     fl_resultMessage := fl_resultMessage f |}.

(** [stream.tee ()]: what the stream hands out is put into the record
    branch as well. *)
Definition tee (runId : string) (item : option ReadResult) (w : World) : World :=
  match item with
  | Some it => setRecorders (alter (fun qp => (qp.1 ++ [it], qp.2)) runId (recorders w)) w
  | None => w
  end.

(** The provider answers the pending [sdkStream.next ()] of the call:
    [pull] runs, the stream passes the item to both branches, and the
    loop of [processStream], which waits in [reader.read ()], goes on:
    around the loop once more, out of it to the end of the [try] block,
    or into the [catch] block. *)
Definition onNext (r : NextResult) (f : Flight) (w : World) : (Flight + RunResult) * World :=
  let '(g, item, h) := pull r (fl_stream f) (host w) in
  let f0 := setStream g f in
  let w0 := tee (fl_runId f) item (setHost h w) in
  match item with
  | Some (RChunk m) => let '(f1, w1) := loopBody m f0 w0 in (inl f1, w1)
  | Some RDone => let '(res, w1) := complete f0 w0 in (inr res, w1)
  | Some (RError e) => let '(res, w1) := failed e (callOf f0) w0 in (inr res, w1)
  | None => (inl f0, w0)
  end.

(** How a call of [start], [resume] or [fork] stands: it was rejected
    before it started, it waits for the provider, or it has returned. *)
Inductive CallResult :=
| Rejects (e : ServiceError)
| Pending (f : Flight)
| Returns (r : RunResult).

(** The part [start] and [executeRun] have in common, word for word up
    to the log line, [mode], [cwd] and [parentSessionId].  First, from
    [const runId] to the insert of the row. *)
Definition register (line runId cwd prompt : string) (mode : RunMode)
    (parentSessionId : option string) (w : World) : Call * World :=
  let startTime := clock (host w) in
  let w1 := logW line w in
  let activeRun :=
    {| ar_runId := runId; ar_sessionId := ""; ar_mode := mode;
       ar_status := StatusRunning; ar_startedAt := clock (host w1);
       ar_aborted := false; ar_webhookUrl := None |} in
  let w2 := setActiveRuns ({[runId]} ∪ activeRuns w1) (setHeap (<[runId := activeRun]> (heap w1)) w1) in
  let w3 :=
    setDb (insertRun
             {| run_id := runId; run_cwd := cwd; run_sessionId := "";
                run_parentSessionId := parentSessionId; run_mode := mode;
                run_status := StatusRunning; run_prompt := prompt;
                run_resultType := None; run_resultJson := None;
                run_durationMs := None;
                run_createdAt := Some (clock (host w2)) |}
             (db (host w2))) w2 in
  ({| c_runId := runId; c_mode := mode; c_parentSessionId := parentSessionId;
      c_startTime := startTime |},
   w3).

(** Then, [execute] having returned the stream, the start of
    [processStream]: it tees the stream, pipes one branch into a new
    sink and takes a reader on the other. *)
Definition launch (c : Call) (stream : Gate) (w : World) : Flight * World :=
  ({| fl_runId := c_runId c; fl_mode := c_mode c;
      fl_parentSessionId := c_parentSessionId c; fl_startTime := c_startTime c;
      fl_stream := stream;
      fl_capturedSessionId := ""; fl_resultMessage := None |},
   setRecorders (<[c_runId c := ([], openPipe (c_runId c) defaultBatchSize)]> (recorders w)) w).

(** The two together.  [opening] is what the call of [query] inside
    [execute] does: it returns, or it throws, which the [try] block
    catches like any later failure. *)
Definition openRun (line runId cwd prompt : string) (mode : RunMode)
    (parentSessionId : option string) (stream : Gate * Query) (opening : Outcome)
    (w : World) : CallResult * World :=
  let '(c, w3) := register line runId cwd prompt mode parentSessionId w in
  let w4 := addQuery stream.2 w3 in
  match opening with
  | Resolved => let '(f, w5) := launch c stream.1 w4 in (Pending f, w5)
  | Rejected e => let '(res, w5) := failed e c w4 in (Returns res, w5)
  end.

(** A call of [start], [resume] or [fork] as it arrives. *)
Inductive Request :=
| ReqStart (params : StartParams)
| ReqResume (params : SessionParams)
| ReqFork (params : SessionParams).

(** [start (params)] up to its first wait in [processStream]. *)
Definition start_begin (params : StartParams) (runId : string) (opening : Outcome)
    (w : World) : CallResult * World :=
  if blank (sp_prompt params)
  then (Rejects (ValidationError "Prompt cannot be empty" "prompt"), w)
  else if blank (sp_cwd params)
  then (Rejects (ValidationError "Working directory (cwd) is required" "cwd"), w)
  else
    openRun "Starting fresh run" runId (sp_cwd params) (sp_prompt params) ModeFresh None
      (executeFresh params (Some runId)) opening w.

(** [executeRun (params, cwd, mode, parentSessionId)] up to its first
    wait in [processStream]. *)
Definition executeRun_begin (params : SessionParams) (cwd : string) (mode : RunMode)
    (parentSessionId : string) (runId : string) (opening : Outcome) (w : World)
    : CallResult * World :=
  openRun "Starting run" runId cwd (rp_prompt params) mode (Some parentSessionId)
    (if decide (mode = ModeResume)
     then executeResume params cwd (Some runId)
     else executeFork params cwd (Some runId)) opening w.

(** [resume (params)] and [fork (params)] up to the first wait: the two
    differ in the mode they pass to [executeRun]. *)
Definition session_begin (mode : RunMode) (params : SessionParams) (runId : string)
    (opening : Outcome) (w : World) : CallResult * World :=
  if blank (rp_prompt params)
  then (Rejects (ValidationError "Prompt cannot be empty" "prompt"), w)
  else if blank (rp_sessionId params)
  then (Rejects (ValidationError "Session ID is required" "sessionId"), w)
  else
    match selectRunBySession (rp_sessionId params) (db (host w)) with
    | None => (Rejects (SessionNotFoundError (rp_sessionId params)), w)
    | Some firstRun =>
        executeRun_begin params (run_cwd firstRun) mode (rp_sessionId params) runId opening w
    end.

Definition resume_begin := session_begin ModeResume.
Definition fork_begin := session_begin ModeFork.

Definition begin (req : Request) (runId : string) (opening : Outcome) (w : World)
    : CallResult * World :=
  match req with
  | ReqStart params => start_begin params runId opening w
  | ReqResume params => resume_begin params runId opening w
  | ReqFork params => fork_begin params runId opening w
  end.

Definition cancelled (a : ActiveRun) : ActiveRun :=
  {| ar_runId := ar_runId a; ar_sessionId := ar_sessionId a; ar_mode := ar_mode a;
     ar_status := StatusCancelled; ar_startedAt := ar_startedAt a;
     ar_aborted := true; ar_webhookUrl := ar_webhookUrl a |}.

Definition cancelPatch : RunPatch :=
  {| set_sessionId := None; set_status := Some StatusCancelled; set_resultType := None;
     set_resultJson := None; set_durationMs := None |}.

(** [cancel (runId)]: throws, or returns nothing. *)
Definition cancel (runId : string) (w : World) : option ServiceError * World :=
  match getActiveRun runId w with
  | None => (Some (RunAlreadyCompletedError runId), w)
  | Some activeRun =>
      let w1 := logW "Cancelling run" w in
      let w2 := setHeap (<[runId := cancelled activeRun]> (heap w1)) w1 in
      let w3 := setDb (updateRun runId cancelPatch (db (host w2))) w2 in
      (None, setActiveRuns (activeRuns w3 ∖ {[runId]}) w3)
  end.

(** *** Whole calls

    A call in isolation: what the call of [query] does and the
    provider's answers to the successive [sdkStream.next ()] are given.
    The call is rejected before it starts, is still waiting for the
    provider when the script is used up, or returns. *)

Fixpoint consume (script : list NextResult) (f : Flight) (w : World)
    : (Flight + RunResult) * World :=
  match script with
  | [] => (inl f, w)
  | r :: rest =>
      match onNext r f w with
      | (inl f', w') => consume rest f' w'
      | (inr res, w') => (inr res, w')
      end
  end.

Definition perform (req : Request) (runId : string) (opening : Outcome)
    (script : list NextResult) (w : World) : CallResult * World :=
  match begin req runId opening w with
  | (Pending f, w1) =>
      match consume script f w1 with
      | (inl f', w') => (Pending f', w')
      | (inr res, w') => (Returns res, w')
      end
  | settled => settled
  end.

(** [start], [resume] and [fork] with a [query] that returns. *)
Definition start (params : StartParams) (runId : string) :=
  perform (ReqStart params) runId Resolved.

(** The provider yields the messages [ms], one per [next ()]. *)
Definition yields (ms : list SDKMessage) : list NextResult :=
  map (fun m => Settled (Some m) false) ms.

(** *** The process as a whole

    Calls from the API layer, the provider and the runtime take turns;
    between two events every call in flight waits for the provider. *)

Inductive Event :=
| Calls (req : Request) (runId : string) (opening : Outcome)
| CallCancel (runId : string)
| AsksInput (runId : string)
| Answers (runId : string) (r : NextResult)
| RecorderTakes (runId : string)
| TimerFires (runId : string)
| TimePasses (ms : Z).

Definition step (w : World) (e : Event) : World :=
  match e with
  | Calls req runId opening =>
      match begin req runId opening w with
      | (Rejects e, w') => reject e w'
      | (Pending f, w') => setFlights (<[runId := f]> (flights w')) w'
      | (Returns res, w') => resolve res w'
      end
  | CallCancel runId =>
      match cancel runId w with
      | (Some e, w') => reject e w'
      | (None, w') => w'
      end
  | AsksInput runId =>
      setFlights (alter (fun f => setStream (promptNext (fl_stream f)) f) runId (flights w)) w
  | Answers runId r =>
      match flights w !! runId with
      | Some f =>
          match onNext r f w with
          | (inl f', w') => setFlights (<[runId := f']> (flights w')) w'
          | (inr res, w') => resolve res (setFlights (delete runId (flights w')) w')
          end
      | None => w
      end
  | RecorderTakes runId =>
      match recorders w !! runId with
      | Some (it :: q, p) =>
          let '(p', h) := deliver it p (host w) in
          setRecorders (<[runId := (q, p')]> (recorders w)) (setHost h w)
      | _ => w
      end
  | TimerFires runId =>
      match recorders w !! runId with
      | Some (q, p) =>
          let '(p', h) := timerFires p (host w) in
          setRecorders (<[runId := (q, p')]> (recorders w)) (setHost h w)
      | None => w
      end
  | TimePasses ms =>
      setHost {| db := db (host w); logs := logs (host w); clock := (clock (host w) + ms)%Z |} w
  end.

Definition run (es : list Event) (w : World) : World := foldl step w es.

(** The status of the persisted row of a run. *)
Definition persistedStatus (runId : string) (w : World) : option RunStatus :=
  run_status <$> getRun runId (db (host w)).

End RunManager.

(** ** Notions used to state the properties *)

Module RecorderSpec.

Import StreamRecorder.

(** The batches handed to the database since the host was [h0]. *)
Definition issued (h0 h : Host) : list (list NewRunMessage) :=
  drop (length (handed (db h0))) (handed (db h)).



(** Events that feed the recorder without ending its stream. *)
Definition feeds (e : PipeEvent) : Prop :=
  match e with
  | Deliver (RChunk _) | Timeout | Elapse _ => True
  | Deliver _ => False
  end.

(** The two ways the record branch ends. *)
Definition ending (r : ReadResult) : Prop :=
  match r with
  | RDone | RError _ => True
  | RChunk _ => False
  end.

(** What holds of a sink made for [runId] on host [h0] after it was
    given the messages [written]; [new] are the batches it handed over. *)
Record SinkInv (runId : string) (h0 : Host) (written : list SDKMessage)
    (new : list (list NewRunMessage)) (s : Sink) (h : Host) : Prop := {
  inv_handed : handed (db h) = handed (db h0) ++ new;
  inv_index : map rm_index (concat new ++ batch s) = seq 0 (index s);
  inv_payload : map rm_messageJson (concat new ++ batch s) = written;
  inv_owner : Forall (fun r => rm_runId r = runId) (concat new ++ batch s);
  inv_runTable : runTable (db h) = runTable (db h0);
  inv_nofault :
    insertFaults (db h0) = [] ->
    insertFaults (db h) = [] /\
    runMessageTable (db h) = runMessageTable (db h0) ++ concat new
}.

(** The bounds a batch size [B] of at least one puts on the batches. *)
Definition Sized (B : Z) (new : list (list NewRunMessage)) (s : Sink) : Prop :=
  Forall (fun b => 1 <= length b /\ (Z.of_nat (length b) <= B)%Z) new /\
  (Z.of_nat (length (batch s)) < B)%Z.

(** What holds of a recorder opened for [runId] with batch size [B] on
    host [h0] once the events [es] have happened to it. *)
Record PipeInv (runId : string) (B : Z) (h0 : Host) (es : list PipeEvent)
    (ph : Pipe * Host) : Prop := {
  pi_runId : pipe_runId ph.1 = runId;
  pi_batchSize : pipe_batchSize ph.1 = B;
  pi_sink :
    exists written new,
      SinkInv runId h0 written new (pipe_sink ph.1) ph.2 /\
      ((1 <= B)%Z -> Sized B new (pipe_sink ph.1)) /\
      (Forall feeds es ->
       pipe_state ph.1 <> Closed /\
       (pipe_state ph.1 = Writable -> written = chunksOf es) /\
       (insertFaults (db h0) = [] -> pipe_state ph.1 = Writable))
}.

End RecorderSpec.

Module ExecutorSpec.

Import Executor.

(** What holds of a gate at every moment: the end of the input stands
    in the history only after a pulled result message, and the promise
    is resolved only once such a message was pulled. *)
Definition GateInv (g : Gate) : Prop :=
  (forall i, endsInputAt i (history g) ->
             exists j, j < i /\ resultPulledAt j (history g)) /\
  (receivedResult g = true -> exists j, resultPulledAt j (history g)) /\
  (promptState g = Finished -> receivedResult g = true).

End ExecutorSpec.

Module RunManagerSpec.

Import Executor StreamRecorder RunManager.

(** The part of the process the calls of [start], [resume], [fork] and
    [cancel] read and write: everything but the recorders, the message
    table with its faults, the journal and the logs. *)
Definition execution (w : World) : World :=
  {| host :=
       {| db := {| runTable := runTable (db (host w)); runMessageTable := [];
                   insertFaults := []; journal := [] |};
          logs := [];
          clock := clock (host w) |};
     heap := heap w; activeRuns := activeRuns w; flights := flights w;
     recorders := ∅;
     settled := settled w; rejected := rejected w;
     queries := queries w; webhooks := webhooks w |}.

(** Two states of the process that differ at most outside that part. *)
Definition agree (w1 w2 : World) : Prop := execution w1 = execution w2.

End RunManagerSpec.

(** ** Sample inputs *)

Module Samples.

Import Executor StreamRecorder RunManager.

Definition initMessage (s : string) : SDKMessage :=
  {| type := "system"; subtype := Some "init"; session_id := s; body := "" |}.

Definition assistantMessage (s text : string) : SDKMessage :=
  {| type := "assistant"; subtype := None; session_id := s; body := text |}.

Definition resultMessage (s sub : string) : SDKMessage :=
  {| type := "result"; subtype := Some sub; session_id := s; body := "" |}.

Definition sampleStart : StartParams :=
  {| sp_cwd := "/tmp"; sp_prompt := "2+2"; sp_images := []; sp_options := [];
     sp_webhookUrl := Some "http://localhost:9/hook" |}.

Definition sampleSession (s prompt : string) : SessionParams :=
  {| rp_sessionId := s; rp_prompt := prompt; rp_images := []; rp_options := [];
     rp_webhookUrl := None |}.

(** The provider yields the message [m]. *)
Definition emits (runId : string) (m : SDKMessage) : Event :=
  Answers runId (Settled (Some m) false).

(** The provider's stream ends. *)
Definition ends (runId : string) : Event := Answers runId (Settled None true).

(** A host whose database fails the next inserts as scripted. *)
Definition hostWith (faults : list (option string)) : Host :=
  {| db := {| runTable := []; runMessageTable := []; insertFaults := faults; journal := [] |};
     logs := []; clock := 0 |}.


(** A run that is cancelled after its first message; the provider then
    fails the pending read. *)
Definition cancelledRun : list Event :=
  [Calls (ReqStart sampleStart) "r1" Resolved; emits "r1" (initMessage "s1");
   CallCancel "r1"; Answers "r1" (Threw "aborted")].

End Samples.

Module CallSpec.

Import Executor RunManager.

(** The values written to [sessionId] of the row of [runId], oldest
    first, by the statements of a journal. *)
Definition sessionWrites (runId : string) (j : list Statement) : list string :=
  omap (fun st =>
          match st with
          | UpdateRun id p => if decide (id = runId) then set_sessionId p else None
          | _ => None
          end) j.

(** The session ids of the init messages among [ms], in order. *)
Definition initIds (ms : list SDKMessage) : list string :=
  session_id <$> filter (fun m => isInit m = true) ms.

(** The errors a call may be rejected with before it starts. *)
Definition upfront (e : ServiceError) : Prop :=
  match e with
  | ValidationError _ _ | SessionNotFoundError _ => True
  | _ => False
  end.

End CallSpec.

(** ** The queries over the recorded runs ([src/core/stream-recorder.ts],
    [src/core/run-manager.ts])

    A [select] returns the rows of the table that pass its [where], in
    the order of its [orderBy] (rows that compare equal stand as the
    merge sort leaves them; the properties below do not depend on it),
    less the first [offset] of them, cut to [limit].  Without an
    [orderBy] the rows come in the order of insertion. *)

Module Queries.

(** [QueryOptions]; a field is [None] when the caller leaves it out. *)
Record QueryOptions := mkQueryOptions {
  qo_limit : option nat;
  qo_offset : option nat;
  qo_fromIndex : option nat
}.

(** [options = {}] *)
Definition noOptions : QueryOptions :=
  {| qo_limit := None; qo_offset := None; qo_fromIndex := None |}.

(** [orderBy (asc (runMessageTable.index))] *)
Definition byIndex (a b : NewRunMessage) : Prop := rm_index a <= rm_index b.

#[global] Instance byIndex_dec : RelDecision byIndex.
Proof. intros a b. unfold byIndex. apply _. Defined.

(** The order of [created_at], a nullable column: NULL sorts first. *)
Definition earlier (a b : option Z) : Prop :=
  match a, b with
  | None, _ => True
  | Some _, None => False
  | Some x, Some y => (x <= y)%Z
  end.

#[global] Instance earlier_dec : RelDecision earlier.
Proof. intros [x|] [y|]; simpl; apply _. Defined.

(** [orderBy (asc (runTable.createdAt))] *)
Definition byCreatedAt (a b : Run) : Prop := earlier (run_createdAt a) (run_createdAt b).

#[global] Instance byCreatedAt_dec : RelDecision byCreatedAt.
Proof. intros a b. unfold byCreatedAt. apply _. Defined.

(** [getMessages (runId, options)] *)
Definition getMessages (runId : string) (options : QueryOptions) (d : Db) : list SDKMessage :=
  let offset := default 0 (qo_offset options) in
  let fromIndex := default 0 (qo_fromIndex options) in
  let query :=
    drop offset
      (merge_sort byIndex
         (filter (fun r => rm_runId r = runId /\ fromIndex <= rm_index r)
                 (runMessageTable d))) in
  let results :=
    match qo_limit options with
    | Some (S n) => take (S n) query
    | _ => query
    end in
  rm_messageJson <$> results.

(** [getMessageCount (runId)] *)
Definition getMessageCount (runId : string) (d : Db) : nat :=
  length (filter (fun r => rm_runId r = runId) (runMessageTable d)).

(** [getRunMessages (runId)] of the run manager. *)
Definition getRunMessages (runId : string) (d : Db) : list SDKMessage :=
  getMessages runId noOptions d.

(** [SessionSummary]; the empty string that stands for a missing
    [createdAt] is [None]. *)
Record SessionSummary := mkSummary {
  ss_sessionId : string;
  ss_cwd : string;
  ss_runCount : nat;
  ss_firstRunAt : option Z;
  ss_lastRunAt : option Z
}.

(** A [Map] with string keys: its entries in the order the keys were
    first set. *)
Fixpoint mapGet {V} (k : string) (m : list (string * V)) : option V :=
  match m with
  | [] => None
  | (k', v) :: rest => if decide (k' = k) then Some v else mapGet k rest
  end.

Fixpoint mapSet {V} (k : string) (v : V) (m : list (string * V)) : list (string * V) :=
  match m with
  | [] => [(k, v)]
  | (k', v') :: rest =>
      if decide (k' = k) then (k, v) :: rest else (k', v') :: mapSet k v rest
  end.

(** The body of the loop of [getSessions] for one run. *)
Definition group (sessionMap : list (string * SessionSummary)) (run : Run)
    : list (string * SessionSummary) :=
  match mapGet (run_sessionId run) sessionMap with
  | Some existing =>
      mapSet (run_sessionId run)
        {| ss_sessionId := ss_sessionId existing;
           ss_cwd := ss_cwd existing;
           ss_runCount := S (ss_runCount existing);
           ss_firstRunAt := ss_firstRunAt existing;
           ss_lastRunAt :=
             match run_createdAt run with
             | Some t => Some t
             | None => ss_lastRunAt existing
             end |}
        sessionMap
  | None =>
      mapSet (run_sessionId run)
        {| ss_sessionId := run_sessionId run;
           ss_cwd := run_cwd run;
           ss_runCount := 1;
           ss_firstRunAt := run_createdAt run;
           ss_lastRunAt := run_createdAt run |}
        sessionMap
  end.

(** [getSessions ()] *)
Definition getSessions (d : Db) : list SessionSummary :=
  let runs := merge_sort byCreatedAt (runTable d) in
  (foldl group [] runs).*2.

(** [getSessionRuns (sessionId)] *)
Definition getSessionRuns (sessionId : string) (d : Db) : list Run :=
  merge_sort byCreatedAt (filter (fun r => run_sessionId r = sessionId) (runTable d)).

(** [getSession (sessionId)] *)
Definition getSession (sessionId : string) (d : Db) : option SessionSummary :=
  let runs := getSessionRuns sessionId d in
  if decide (length runs = 0) then None
  else
    let firstRun := head runs in
    let lastRun := last runs in
    Some {| ss_sessionId := sessionId;
            ss_cwd := default "" (run_cwd <$> firstRun);
            ss_runCount := length runs;
            ss_firstRunAt := firstRun ≫= run_createdAt;
            ss_lastRunAt := lastRun ≫= run_createdAt |}.

(** [getSessionMessages (sessionId)] *)
Definition getSessionMessages (sessionId : string) (d : Db) : list SDKMessage :=
  let runs := getSessionRuns sessionId d in
  foldl (fun allMessages run => allMessages ++ getMessages (run_id run) noOptions d) [] runs.

(** [new Set (xs)]: the elements in the order they first occur. *)
Definition newSet (xs : list string) : list string :=
  foldl (fun s x => if decide (x ∈ s) then s else s ++ [x]) [] xs.

(** [getForkedSessions (sessionId)] *)
Definition getForkedSessions (sessionId : string) (d : Db) : list SessionSummary :=
  let forkRuns := filter (fun r => run_parentSessionId r = Some sessionId) (runTable d) in
  let forkedSessionIds := newSet (run_sessionId <$> forkRuns) in
  foldl (fun summaries forkedSessionId =>
           match getSession forkedSessionId d with
           | Some summary => summaries ++ [summary]
           | None => summaries
           end) [] forkedSessionIds.

End Queries.

(** ** Notions used to state the properties of the queries *)

Module QuerySpec.

Import StreamRecorder Queries.

(** A timeout is scheduled exactly when records are buffered. *)
Definition Armed (s : Sink) : Prop :=
  timerLive s = flushTimer s /\ (flushTimer s = true <-> batch s <> []).

(** The summary of the session [k] whose runs are [runs], oldest
    first; none when it has no run. *)
Definition summarise (k : string) (runs : list Run) : option SessionSummary :=
  match runs with
  | [] => None
  | firstRun :: _ =>
      Some {| ss_sessionId := k;
              ss_cwd := run_cwd firstRun;
              ss_runCount := length runs;
              ss_firstRunAt := run_createdAt firstRun;
              ss_lastRunAt := last (omap run_createdAt runs) |}
  end.

(** The runs of the session [k] among [runs]. *)
Definition ofSession (k : string) (runs : list Run) : list Run :=
  filter (fun r => run_sessionId r = k) runs.

(** What the loop of [getSessions] has in its map after the runs [l]. *)
Definition Grouped (m : list (string * SessionSummary)) (l : list Run) : Prop :=
  NoDup m.*1 /\ forall k, mapGet k m = summarise k (ofSession k l).

End QuerySpec.

(** ** Notions used to state the properties of the registry and the rows *)

Module RegistrySpec.

Import Executor RunManager.


(** What holds of a call in flight: the row and the object of its run
    carry the session id the call has captured so far, and the row has
    no result yet. *)
Definition Tracked (f : Flight) (w : World) : Prop :=
  exists row,
    getRun (fl_runId f) (db (host w)) = Some row /\
    run_sessionId row = fl_capturedSessionId f /\
    run_mode row = fl_mode f /\
    run_parentSessionId row = fl_parentSessionId f /\
    run_resultType row = None /\
    (ar_sessionId <$> heap w !! fl_runId f) = Some (fl_capturedSessionId f).

(** The row of a run says what the result its call returned says. *)
Definition Matches (res : RunResult) (w : World) : Prop :=
  exists row,
    getRun (res_runId res) (db (host w)) = Some row /\
    run_sessionId row = res_sessionId res /\
    run_parentSessionId row = res_parentSessionId res /\
    run_mode row = res_mode res /\
    run_status row = res_status res /\
    run_durationMs row = Some (res_durationMs res) /\
    run_resultType row = res_result res ≫= subtype /\
    run_resultJson row =
      match res_error res with
      | Some e => Some (JsonError e)
      | None => JsonMessage <$> res_result res
      end.

End RegistrySpec.

(** ** Notions used to state the properties of the stream of [execute] *)

Module GateSpec.

Import Executor.

(** The events of a history that the provider sees on its input
    channel. *)
Definition inputOf (hist : list GateEvent) : list GateEvent :=
  omap (fun e => match e with Pulled _ _ => None | _ => Some e end) hist.




(** The input the provider has seen, by where the prompt generator
    stands. *)
Definition Prompted (g : Gate) : Prop :=
  inputOf (history g) =
    match promptState g with
    | NotStarted => []
    | AtYield | AtAwait => [InputMessage (userMessage g)]
    | Finished => [InputMessage (userMessage g); InputEnd]
    end.

End GateSpec.

(** ** The service errors ([src/errors.ts]) *)

Module Errors.

(** [this.code] *)
Definition code (e : ServiceError) : string :=
  match e with
  | SessionNotFoundError _ => "SESSION_NOT_FOUND"
  | RunNotFoundError _ => "RUN_NOT_FOUND"
  | RunAlreadyCompletedError _ => "RUN_ALREADY_COMPLETED"
  | ValidationError _ _ => "VALIDATION_ERROR"
  | ExecutionError _ => "EXECUTION_ERROR"
  | RunCancelledError _ => "RUN_CANCELLED"
  end.


(** [this.message] *)
Definition message (e : ServiceError) : string :=
  match e with
  | SessionNotFoundError sessionId => "Session '" +:+ sessionId +:+ "' not found"
  | RunNotFoundError runId => "Run '" +:+ runId +:+ "' not found"
  | RunAlreadyCompletedError runId =>
      "Run '" +:+ runId +:+ "' has already completed and cannot be cancelled"
  | ValidationError message _ => message
  | ExecutionError message => message
  | RunCancelledError runId => "Run '" +:+ runId +:+ "' was cancelled"
  end.

(** The object under the key [error] of [toJSON ()]. *)
Record ErrorJson := mkErrorJson {
  ej_code : string;
  ej_message : string;
  ej_field : option string
}.


(** What a [catch] receives: a service error, another [Error] with its
    message, or any other value with its [String (error)]. *)
Inductive Thrown :=
| ThrownService (e : ServiceError)
| ThrownError (message : string)
| ThrownValue (text : string).

(** [isServiceError (error)] *)
Definition isServiceError (error : Thrown) : bool :=
  match error with
  | ThrownService _ => true
  | _ => false
  end.


End Errors.

(** ** The request schemas ([src/api/runs/schema.ts])

    A request body is taken as parsed JSON, each key classified by how
    its value stands to the type the schema expects there.  Keys the
    schema does not name are dropped by [z.object].  Of an issue the
    path and, where the schema gives one, the message are kept. *)

Module Schema.

Import RunManager.

Definition MAX_IMAGE_DATA_LENGTH : Z := 27000000.

Inductive Field (A : Type) :=
| Absent
| Mistyped
| Given (a : A).

Arguments Absent {A}.
Arguments Mistyped {A}.
Arguments Given {A} a.

Inductive Key := Name (name : string) | Index (i : nat).

Inductive Issue :=
| InvalidType (path : list Key)
| InvalidOption (path : list Key)
| Refused (path : list Key) (message : string).

(** [s.trim ()], on ASCII white space. *)
Fixpoint trimStart (s : string) : string :=
  match s with
  | EmptyString => EmptyString
  | String c rest => if isSpace c then trimStart rest else s
  end.



Definition len (s : string) : Z := Z.of_nat (String.length s).

(** The issues of a result, none when it is a value. *)
Definition issuesOf {A} (r : list Issue + A) : list Issue :=
  match r with
  | inl issues => issues
  | inr _ => []
  end.



Definition mediaTypes : list string := ["image/png"; "image/jpeg"; "image/gif"; "image/webp"].

Record RawImage := mkRawImage {
  ri_mediaType : Field string;
  ri_data : Field string
}.

(** [imageSchema], for the element at [path]. *)
Definition imageSchema (path : list Key) (v : Field RawImage) : list Issue + ImageAttachment :=
  match v with
  | Given img =>
      let mediaType : list Issue + string :=
        match ri_mediaType img with
        | Given s =>
            if decide (s ∈ mediaTypes) then inr s
            else inl [InvalidOption (path ++ [Name "mediaType"])]
        | _ => inl [InvalidType (path ++ [Name "mediaType"])]
        end in
      let data : list Issue + string :=
        match ri_data img with
        | Given s =>
            if (len s <? 1)%Z
            then inl [Refused (path ++ [Name "data"]) "Image data cannot be empty"]
            else if (MAX_IMAGE_DATA_LENGTH <? len s)%Z
            then inl [Refused (path ++ [Name "data"]) "Image data too large"]
            else inr s
        | _ => inl [InvalidType (path ++ [Name "data"])]
        end in
      match mediaType, data with
      | inr m, inr d => inr {| mediaType := m; data := d |}
      | _, _ => inl (issuesOf mediaType ++ issuesOf data)
      end
  | _ => inl [InvalidType path]
  end.










End Schema.

(** ** The routes ([src/api/runs/route.ts], [src/api/sessions/route.ts])

    A handler is taken from the validated body to the response.  The
    reads of the database do not throw, so the [catch] of a handler is
    entered with what the run manager throws.  [zValidator] answers a
    body the schema refuses with status 400 and the issues, before the
    handler runs. *)

Module Api.

Import Executor RunManager Errors Schema Queries.

Inductive Body :=
| BodyResult (result : RunResult)
| BodyError (error : ErrorJson)
| BodyIssues (issues : list Issue)
| BodySuccess
| BodyRun (run : Run)
| BodyRuns (runs : list Run)
| BodyMessages (messages : list SDKMessage)
| BodySession (session : SessionSummary)
| BodySessions (sessions : list SessionSummary).

Record Response := mkResponse {
  resp_status : Z;
  resp_body : Body
}.

(** [c.json (data)] answers with status 200. *)
Definition json (data : Body) : Response := {| resp_status := 200; resp_body := data |}.







(** The literal answers of the two [GET] handlers that find nothing. *)
Definition runNotFound : Response :=
  {| resp_status := 404;
     resp_body := BodyError {| ej_code := "RUN_NOT_FOUND"; ej_message := "Run not found";
                          ej_field := None |} |}.

Definition sessionNotFound : Response :=
  {| resp_status := 404;
     resp_body := BodyError {| ej_code := "SESSION_NOT_FOUND"; ej_message := "Session not found";
                          ej_field := None |} |}.

(** [GET /runs/:runId] *)
Definition getRunById (runId : string) (w : World) : Response :=
  match getRun runId (db (host w)) with
  | None => runNotFound
  | Some run => json (BodyRun run)
  end.

(** [GET /runs/:runId/messages] *)
Definition getRunMessagesById (runId : string) (w : World) : Response :=
  json (BodyMessages (getRunMessages runId (db (host w)))).

(** [GET /sessions] *)
Definition listSessions (w : World) : Response :=
  json (BodySessions (getSessions (db (host w)))).

(** [GET /sessions/:id] *)
Definition getSessionById (sessionId : string) (w : World) : Response :=
  match getSession sessionId (db (host w)) with
  | None => sessionNotFound
  | Some session => json (BodySession session)
  end.

(** [GET /sessions/:id/messages] *)
Definition getSessionMessagesById (sessionId : string) (w : World) : Response :=
  json (BodyMessages (getSessionMessages sessionId (db (host w)))).

(** [GET /sessions/:id/runs] *)
Definition getSessionRunsById (sessionId : string) (w : World) : Response :=
  json (BodyRuns (getSessionRuns sessionId (db (host w)))).

(** [GET /sessions/:id/forks] *)
Definition getSessionForksById (sessionId : string) (w : World) : Response :=
  json (BodySessions (getForkedSessions sessionId (db (host w)))).

End Api.

(** ** The logger ([src/logger.ts]) *)

Module Logger.

Inductive LogLevel := debug | info | warn | error.

(** The name of a level, the key it has in [LOG_LEVELS]. *)
Definition levelName (level : LogLevel) : string :=
  match level with
  | debug => "debug"
  | info => "info"
  | warn => "warn"
  | error => "error"
  end.

(** [LOG_LEVELS[name]]: a number for the four keys; under any other
    name there is no number ([undefined], or a property every object
    inherits, which [>=] does not read as a number either). *)
Definition LOG_LEVELS (name : string) : option nat :=
  if decide (name = "debug") then Some 0
  else if decide (name = "info") then Some 1
  else if decide (name = "warn") then Some 2
  else if decide (name = "error") then Some 3
  else None.

(** [currentLevel]: [process.env.LOG_LEVEL || 'info']; the variable is
    unset ([None]) or holds a string. *)
Definition currentLevel (env : option string) : string :=
  match env with
  | Some name => if decide (name = "") then "info" else name
  | None => "info"
  end.

(** [shouldLog (level)]: [>=] is false when its right side is not a
    number. *)
Definition shouldLog (env : option string) (level : LogLevel) : bool :=
  match LOG_LEVELS (levelName level), LOG_LEVELS (currentLevel env) with
  | Some l, Some c => c <=? l
  | _, _ => false
  end.

End Logger.

(** ** The state holders ([src/utils/state.ts])

    [T] is the type of the state and [empty] the object [{} as T].  An
    initializer may do something else every time it is called: [init n]
    is what its call number [n] does.  A promise is taken by what
    happens to it: the callback its [then] registered runs when it
    fulfils. *)

Module State.

Section Holder.

Context {T : Type} (empty : T).

(** What a call of [config.init ()] does. *)
Inductive InitResult :=
| Value (v : T)
| Promise
| Throws.

(** The variables [create] closes over, and the number of calls of
    [config.init] made so far. *)
Record Vars := mkVars {
  state : option T;
  initialized : bool;
  initPromise : bool;
  calls : nat
}.

(** What [getAsync] settles to: the state, what the promise of the
    initializer fulfils with, or a rejection. *)
Inductive Awaited :=
| Now (v : T)
| Later
| Fails (message : string).

Context (init : nat -> InitResult).

(** [let state = undefined; let initialized = false; let initPromise = null] *)
Definition create : Vars :=
  {| state := None; initialized := false; initPromise := false; calls := 0 |}.

(** [const tryInitSync = (): boolean => ...] *)
Definition tryInitSync (s : Vars) : bool * Vars :=
  if initialized s then (true, s)
  else if initPromise s then (false, s)
  else
    match init (calls s) with
    | Promise =>
        (false, {| state := state s; initialized := initialized s; initPromise := true;
                   calls := S (calls s) |})
    | Value result =>
        (true, {| state := Some result; initialized := true; initPromise := initPromise s;
                  calls := S (calls s) |})
    | Throws =>
        (false, {| state := state s; initialized := initialized s;
                   initPromise := initPromise s; calls := S (calls s) |})
    end.

(** The callback of [result.then ((r) => ...)], run with the value the
    promise of the initializer fulfilled with. *)
Definition fulfilled (r : T) (s : Vars) : Vars :=
  {| state := Some r; initialized := true; initPromise := false; calls := calls s |}.

(** [const ensureInitialized = async (): Promise<T> => ...] *)
Definition ensureInitialized (s : Vars) : Awaited * Vars :=
  match initialized s, state s with
  | true, Some v => (Now v, s)
  | _, _ =>
      let '(ok, s') := tryInitSync s in
      match ok, state s' with
      | true, Some v => (Now v, s')
      | _, _ =>
          if initPromise s' then (Later, s')
          else (Fails "Failed to initialize state", s')
      end
  end.

(** [get ()] *)
Definition get (s : Vars) : T * Vars :=
  let s' := (tryInitSync s).2 in
  (default empty (state s'), s').

(** [getAsync ()] *)
Definition getAsync (s : Vars) : Awaited * Vars := ensureInitialized s.

(** [set (updater)] *)
Definition set (updater : T -> T) (s : Vars) : Vars :=
  let s' := (tryInitSync s).2 in
  match state s' with
  | None =>
      {| state := Some (updater empty); initialized := true; initPromise := initPromise s';
         calls := calls s' |}
  | Some current =>
      {| state := Some (updater current); initialized := initialized s';
         initPromise := initPromise s'; calls := calls s' |}
  end.

(** [isInitialized ()] *)
Definition isInitialized (s : Vars) : bool := initialized s.

(** [reset ()] *)
Definition reset (s : Vars) : Vars :=
  {| state := None; initialized := false; initPromise := false; calls := calls s |}.

(** A call of one of the methods every holder has. *)
Inductive Call :=
| CallGet
| CallSet (updater : T -> T)
| CallIsInitialized
| CallReset.

Definition called (s : Vars) (c : Call) : Vars :=
  match c with
  | CallGet => (get s).2
  | CallSet updater => set updater s
  | CallIsInitialized => s
  | CallReset => reset s
  end.

(** What happens to a holder: a call of one of these methods or of
    [getAsync], or the promise of its initializer fulfilling. *)
Inductive Event :=
| Called (c : Call)
| CalledGetAsync
| Fulfils (r : T).

Definition after (s : Vars) (e : Event) : Vars :=
  match e with
  | Called c => called s c
  | CalledGetAsync => (getAsync s).2
  | Fulfils r => fulfilled r s
  end.

(** The updaters given to [set] since the last [reset], and what they
    make of a value. *)
Definition sinceReset (cs : list Call) : list (T -> T) :=
  foldl (fun us c =>
           match c with
           | CallSet updater => us ++ [updater]
           | CallReset => []
           | _ => us
           end) [] cs.

Definition updated (v : T) (us : list (T -> T)) : T := foldl (fun x u => u x) v us.

End Holder.

End State.

(** *** The synchronous holder of [StateV2]

    [createSyncState] and the synchronous branch of [createV2] have the
    same [get], [set], [isInitialized] and [reset]; they differ in the
    variables they start from.  The initializer returns a value or
    throws ([None]), and what it throws leaves the call of [get] or
    [set] ([None] again).  An initialized holder has a state. *)

Module StateV2.

Section Holder.

Context {T : Type}.

Record Vars := mkVars {
  state : option T;
  initialized : bool;
  calls : nat
}.

Context (init : nat -> option T).

(** [createSyncState (config)] *)
Definition createSyncState : Vars :=
  {| state := None; initialized := false; calls := 0 |}.

(** [createV2 (config)]: the call that tests for a promise is the
    initialization; what it throws leaves [createV2]. *)
Definition createV2 : option Vars :=
  match init 0 with
  | Some testResult => Some {| state := Some testResult; initialized := true; calls := 1 |}
  | None => None
  end.

(** [const ensureInit = (): T => ...] *)
Definition ensureInit (s : Vars) : option T * Vars :=
  if initialized s then (state s, s)
  else
    match init (calls s) with
    | Some v => (Some v, {| state := Some v; initialized := true; calls := S (calls s) |})
    | None => (None, {| state := state s; initialized := initialized s; calls := S (calls s) |})
    end.

(** [get ()] *)
Definition get (s : Vars) : option T * Vars := ensureInit s.

(** [set (updater)] *)
Definition set (updater : T -> T) (s : Vars) : Vars :=
  match ensureInit s with
  | (Some v, s') =>
      {| state := Some (updater v); initialized := initialized s'; calls := calls s' |}
  | (None, s') => s'
  end.

(** [isInitialized ()] *)
Definition isInitialized (s : Vars) : bool := initialized s.

(** [reset ()] *)
Definition reset (s : Vars) : Vars :=
  {| state := None; initialized := false; calls := calls s |}.

Definition called (s : Vars) (c : State.Call (T:=T)) : Vars :=
  match c with
  | State.CallGet => (get s).2
  | State.CallSet updater => set updater s
  | State.CallIsInitialized => s
  | State.CallReset => reset s
  end.

End Holder.

End StateV2.

Module StateSpec.

Section Spec.

Context {T : Type}.

(** An initialized holder has a state, and no other has. *)
Definition Settled (s : State.Vars (T:=T)) : Prop :=
  if State.initialized s then is_Some (State.state s) else State.state s = None.

(** What the calls so far have made of a holder whose initializer
    returns [v0]: no state and no updater since the last [reset], or
    the value the updaters since then make of [v0]. *)
Definition Holds (v0 : T) (st : option T) (i : bool) (us : list (T -> T)) : Prop :=
  (i = false /\ st = None /\ us = []) \/ (i = true /\ st = Some (State.updated v0 us)).

End Spec.

End StateSpec.

(** * Properties *)

Section Folds.
Context {A E : Type} (f : A -> E -> A) (P : A -> Prop).

Lemma foldl_preserves (es : list E) (a : A) :
  P a -> (forall a e, P a -> P (f a e)) -> P (foldl f a es).
Proof.
  intros Ha Hstep. revert a Ha.
  induction es as [|e es IH]; intros a Ha; simpl; [exact Ha|].
  apply IH, Hstep, Ha.
Qed.

Lemma foldl_snoc (es : list E) (e : E) (a : A) :
  foldl f a (es ++ [e]) = f (foldl f a es) e.
Proof. by rewrite foldl_app. Qed.

End Folds.

Module RecorderFacts.

Import StreamRecorder RecorderSpec.

Lemma insertMessages_spec rows d o d' :
  insertMessages rows d = (o, d') ->
  handed d' = handed d ++ [rows] /\
  runTable d' = runTable d /\
  (insertFaults d = [] ->
   o = Resolved /\ insertFaults d' = [] /\
   runMessageTable d' = runMessageTable d ++ rows).
Proof.
  unfold insertMessages, handed.
  destruct (insertFaults d) as [|[e|] rest]; intros [= <- <-]; simpl;
    rewrite omap_app; repeat split; try done.
Qed.

(** [flush] either finds the buffer empty and does nothing, or hands the
    whole buffer to the database and leaves it empty. *)
Lemma flush_cases s h :
  (batch s = [] /\ flush s h = (Resolved, s, h)) \/
  (batch s <> [] /\
   exists o d,
     insertMessages (batch s) (db h) = (o, d) /\
     flush s h =
       (o, {| index := index s; batch := []; flushTimer := false;
              timerLive := if flushTimer s then false else timerLive s |},
        withDb d h)).
Proof.
  unfold flush. destruct (batch s) as [|r rs] eqn:Hb; [by left|right].
  split; [done|]. destruct (insertMessages (r :: rs) (db h)) as [o d].
  by exists o, d.
Qed.

Section Sink.
Context (runId : string) (h0 : Host).

Lemma SinkInv_init : SinkInv runId h0 [] [] createSink h0.
Proof.
  split; simpl; try done.
  - by rewrite app_nil_r.
  - intros ->. by rewrite app_nil_r.
Qed.

(** The sink's variables may change as long as the buffer and the
    counter stay. *)
Lemma SinkInv_same written new s s' h :
  index s' = index s -> batch s' = batch s ->
  SinkInv runId h0 written new s h -> SinkInv runId h0 written new s' h.
Proof. intros Hi Hb [? ? ? ? ? ?]. split; rewrite ?Hi, ?Hb; done. Qed.

Lemma SinkInv_host written new s h h' :
  db h' = db h ->
  SinkInv runId h0 written new s h -> SinkInv runId h0 written new s h'.
Proof. intros Hd [? ? ? ? ? ?]. split; rewrite ?Hd; done. Qed.

Lemma SinkInv_flush written new s h o s' h' :
  SinkInv runId h0 written new s h ->
  flush s h = (o, s', h') ->
  exists new',
    SinkInv runId h0 written new' s' h' /\
    batch s' = [] /\ index s' = index s /\
    logs h' = logs h /\ clock h' = clock h /\
    new' = new ++ (if decide (batch s = []) then [] else [batch s]) /\
    (insertFaults (db h0) = [] -> o = Resolved).
Proof.
  intros Hinv Hf.
  destruct (flush_cases s h) as [[Hb Hf']|[Hb (o' & d & Hi & Hf')]];
    rewrite Hf' in Hf; injection Hf as <- <- <-.
  - exists new. rewrite decide_True by done. rewrite app_nil_r.
    split_and!; try done.
  - exists (new ++ [batch s]). rewrite decide_False by done.
    destruct (insertMessages_spec _ _ _ _ Hi) as (Hh & Hr & Hnf).
    destruct Hinv as [H1 H2 H3 H4 H5 H6].
    split_and!; try done.
    + split; simpl.
      * by rewrite Hh, H1, <- app_assoc.
      * by rewrite concat_app; simpl; rewrite !app_nil_r.
      * by rewrite concat_app; simpl; rewrite !app_nil_r.
      * by rewrite concat_app; simpl; rewrite !app_nil_r.
      * congruence.
      * intros H. destruct (H6 H) as [Hf0 Ht].
        destruct (Hnf Hf0) as (_ & ? & ->). split; [done|].
        by rewrite Ht, concat_app; simpl; rewrite app_nil_r, app_assoc.
    + intros H. destruct (H6 H) as [Hf0 _]. by destruct (Hnf Hf0) as (? & _).
Qed.

Lemma SinkInv_write B written new m s h o s' h' :
  SinkInv runId h0 written new s h ->
  write runId B m s h = (o, s', h') ->
  exists new',
    SinkInv runId h0 (written ++ [m]) new' s' h' /\
    index s' = S (index s) /\
    logs h' = logs h /\ clock h' = clock h /\
    (insertFaults (db h0) = [] -> o = Resolved) /\
    (new' = new /\ batch s' = batch s ++ [mkRunMessage runId (index s) (type m) m (clock h)] /\
       (Z.of_nat (S (length (batch s))) < B)%Z /\ o = Resolved
     \/
     new' = new ++ [batch s ++ [mkRunMessage runId (index s) (type m) m (clock h)]] /\
       batch s' = [] /\ (B <= Z.of_nat (S (length (batch s))))%Z).
Proof.
  intros Hinv. unfold write.
  set (record := {| rm_runId := runId; rm_index := index s |}).
  set (s1 := {| index := S (index s); batch := batch s ++ [record] |}).
  assert (Hinv1 : SinkInv runId h0 (written ++ [m]) new s1 h).
  { destruct Hinv as [H1 H2 H3 H4 H5 H6]. split; cbn [index batch s1]; try done.
    - by rewrite app_assoc, map_app, H2, seq_S.
    - by rewrite app_assoc, map_app, H3.
    - rewrite app_assoc, Forall_app. split; [done|]. by repeat constructor. }
  assert (Hlen : length (batch s1) = S (length (batch s))).
  { simpl. rewrite length_app. simpl. lia. }
  destruct (Z.leb_spec B (Z.of_nat (length (batch s1)))) as [Hge|Hlt].
  - intros Hf. destruct (SinkInv_flush _ _ _ _ _ _ _ Hinv1 Hf)
      as (new' & Hinv' & Hb & Hi & Hl & Hc & Hnew & Hok).
    exists new'. split_and!; try done. right.
    rewrite decide_False in Hnew by (simpl; by destruct (batch s)).
    split_and!; try done. by rewrite <- Hlen.
  - intros [= <- <- <-]. exists new. split_and!; try done.
    + eapply SinkInv_same; [..|exact Hinv1]; unfold scheduleFlush;
        by destruct (flushTimer s1).
    + unfold scheduleFlush. by destruct (flushTimer s1).
    + left. split_and!; try done.
      * unfold scheduleFlush. by destruct (flushTimer s1).
      * by rewrite <- Hlen.
Qed.

Lemma SinkInv_issued written new s h :
  SinkInv runId h0 written new s h -> issued h0 h = new.
Proof.
  intros [H1 _ _ _ _ _]. unfold issued. by rewrite H1, drop_app_length.
Qed.


Lemma SinkInv_count written new s h :
  SinkInv runId h0 written new s h ->
  index s = length written /\ index s = length (concat new) + length (batch s).
Proof.
  intros [_ H2 H3 _ _ _].
  assert (Hlen : index s = length (concat new ++ batch s)).
  { rewrite <- (length_map rm_index), H2. symmetry. apply length_seq. }
  split.
  - by rewrite <- H3, length_map.
  - by rewrite Hlen, length_app.
Qed.

End Sink.

Lemma Sized_flush B new s :
  Sized B new s ->
  Sized B (new ++ (if decide (batch s = []) then [] else [batch s]))
    {| index := index s; batch := []; flushTimer := false; timerLive := false |}.
Proof.
  intros [Hall Hlt]. split; [|simpl; lia].
  destruct (decide (batch s = [])) as [Hb|Hb]; [by rewrite app_nil_r|].
  rewrite Forall_app. split; [done|]. constructor; [|done].
  destruct (batch s); [done|]. simpl in *. lia.
Qed.

Lemma Sized_sink B new s s' :
  batch s' = batch s -> Sized B new s -> Sized B new s'.
Proof. intros Hb [? ?]. split; [done|]. by rewrite Hb. Qed.

Lemma chunksOf_snoc es e :
  chunksOf (es ++ [e]) =
    chunksOf es ++ match e with Deliver (RChunk m) => [m] | _ => [] end.
Proof.
  unfold chunksOf. rewrite omap_app. f_equal.
  by destruct e as [[m| |]| |].
Qed.

Ltac same_db := eapply SinkInv_host; [|eassumption]; done.

Lemma timerFires_inv runId h0 B written new p h p' h' :
  SinkInv runId h0 written new (pipe_sink p) h ->
  timerFires p h = (p', h') ->
  exists new',
    SinkInv runId h0 written new' (pipe_sink p') h' /\
    pipe_state p' = pipe_state p /\ pipe_runId p' = pipe_runId p /\
    pipe_batchSize p' = pipe_batchSize p /\
    (Sized B new (pipe_sink p) -> Sized B new' (pipe_sink p')).
Proof.
  intros Hinv. unfold timerFires.
  destruct (timerLive (pipe_sink p)) eqn:Hlive; [|intros [= <- <-]; by exists new].
  unfold onTimeout.
  set (s0 := {| index := index (pipe_sink p); timerLive := false |}).
  assert (Hinv0 : SinkInv runId h0 written new s0 h)
    by (eapply SinkInv_same; [..|exact Hinv]; done).
  destruct (flush s0 h) as [[o s1] h1] eqn:Hf.
  destruct (SinkInv_flush _ _ _ _ _ _ _ _ _ Hinv0 Hf)
    as (new' & Hinv' & Hb & Hi & Hl & Hc & Hnew & Hok).
  assert (Hsz : Sized B new (pipe_sink p) -> Sized B new' s1).
  { intros Hs. subst new'. eapply Sized_sink; [|apply (Sized_flush B new s0)].
    - by rewrite Hb.
    - by eapply Sized_sink. }
  destruct o; intros [= <- <-]; exists new'; split_and!; try done.
  same_db.
Qed.

Lemma deliver_chunk_inv runId h0 written new m p h p' h' :
  SinkInv runId h0 written new (pipe_sink p) h ->
  pipe_state p = Writable -> pipe_runId p = runId ->
  deliver (RChunk m) p h = (p', h') ->
  exists new',
    SinkInv runId h0 (written ++ [m]) new' (pipe_sink p') h' /\
    pipe_runId p' = pipe_runId p /\ pipe_batchSize p' = pipe_batchSize p /\
    (pipe_state p' = Writable \/ pipe_state p' = Errored) /\
    (insertFaults (db h0) = [] -> pipe_state p' = Writable) /\
    (Sized (pipe_batchSize p) new (pipe_sink p) ->
     Sized (pipe_batchSize p) new' (pipe_sink p')).
Proof.
  intros Hinv Hst Hid. unfold deliver. rewrite Hst, Hid.
  destruct (write runId (pipe_batchSize p) m (pipe_sink p) h) as [[o s1] h1] eqn:Hw.
  destruct (SinkInv_write _ _ _ _ _ _ _ _ _ _ _ Hinv Hw)
    as (new' & Hinv' & Hi & Hl & Hc & Hok & Hcases).
  assert (Hsz : Sized (pipe_batchSize p) new (pipe_sink p) ->
                Sized (pipe_batchSize p) new' s1).
  { intros [Hall Hlt].
    destruct Hcases as [(-> & Hb & Hlt' & _)|(-> & Hb & Hge)].
    - split; [done|]. rewrite Hb, length_app. simpl. lia.
    - split; [|rewrite Hb; simpl; lia].
      rewrite Forall_app. split; [done|]. constructor; [|done].
      rewrite length_app. simpl. lia. }
  destruct o; intros [= <- <-]; exists new'; simpl; split_and!; try done;
    try (by left); try (by right).
  - same_db.
  - intros Hnf. by specialize (Hok Hnf).
Qed.

Lemma deliver_ending_inv runId h0 B written new fin p h p' h' :
  SinkInv runId h0 written new (pipe_sink p) h ->
  pipe_state p = Writable -> ending fin ->
  deliver fin p h = (p', h') ->
  SinkInv runId h0 written
    (new ++ (if decide (batch (pipe_sink p) = []) then [] else [batch (pipe_sink p)]))
    (pipe_sink p') h' /\
  batch (pipe_sink p') = [] /\
  pipe_runId p' = pipe_runId p /\ pipe_batchSize p' = pipe_batchSize p /\
  pipe_state p' <> Writable /\
  (Sized B new (pipe_sink p) ->
   Sized B (new ++ (if decide (batch (pipe_sink p) = []) then [] else [batch (pipe_sink p)]))
     (pipe_sink p')).
Proof.
  intros Hinv Hst Hfin. unfold deliver. rewrite Hst.
  destruct fin as [m| |reason]; [done| |].
  - unfold close. destruct (flush (pipe_sink p) h) as [[o s1] h1] eqn:Hf.
    destruct (SinkInv_flush _ _ _ _ _ _ _ _ _ Hinv Hf)
      as (new' & Hinv' & Hb & Hi & Hl & Hc & -> & Hok).
    assert (Hsz : Sized B new (pipe_sink p) ->
                  Sized B (new ++ (if decide (batch (pipe_sink p) = []) then []
                                   else [batch (pipe_sink p)])) s1).
    { intros Hs. eapply Sized_sink; [|apply (Sized_flush B new (pipe_sink p) Hs)].
      by rewrite Hb. }
    destruct o; intros [= <- <-]; simpl; split_and!; try done.
    same_db.
  - unfold abort.
    set (s0 := {| index := index (pipe_sink p) |}).
    assert (Hinv0 : SinkInv runId h0 written new s0 h)
    by (eapply SinkInv_same; [..|exact Hinv]; done).
    destruct (flush s0 h) as [[o s1] h1] eqn:Hf.
    destruct (SinkInv_flush _ _ _ _ _ _ _ _ _ Hinv0 Hf)
      as (new' & Hinv' & Hb & Hi & Hl & Hc & -> & Hok).
    assert (Hsz : Sized B new (pipe_sink p) ->
                  Sized B (new ++ (if decide (batch (pipe_sink p) = []) then []
                                   else [batch (pipe_sink p)])) s1).
    { intros Hs. eapply Sized_sink; [|apply (Sized_flush B new s0)].
      - by rewrite Hb.
      - by eapply Sized_sink. }
    destruct o; intros [= <- <-]; simpl; split_and!; try done; same_db.
Qed.

Section Pipe.
Context (runId : string) (B : Z) (h0 : Host).

Lemma PipeInv_init : PipeInv runId B h0 [] (openPipe runId B, h0).
Proof.
  split; [done..|]. exists [], []. split_and!; try done.
  - apply SinkInv_init.
  - intros HB. split; [constructor|simpl; lia].
Qed.

Lemma PipeInv_step es ph e :
  PipeInv runId B h0 es ph -> PipeInv runId B h0 (es ++ [e]) (pipeStep ph e).
Proof.
  destruct ph as [p h]. intros [Hid HB (written & new & Hs & Hsz & Hfeed)].
  simpl in Hid, HB, Hs, Hsz, Hfeed.
  destruct e as [r| |ms]; simpl.
  - destruct (decide (pipe_state p = Writable)) as [Hw|Hnw].
    + destruct r as [m| |reason].
      * destruct (deliver (RChunk m) p h) as [p' h'] eqn:Hd.
        destruct (deliver_chunk_inv _ _ _ _ _ _ _ _ _ Hs Hw Hid Hd)
          as (new' & Hs' & Hid' & HB' & Hst & Hnf & Hsz').
        split; simpl; [congruence..|].
        exists (written ++ [m]), new'. split_and!; try done.
        -- intros H1. rewrite HB in Hsz'. auto.
        -- intros Hf. apply Forall_app in Hf as [Hf _].
           destruct (Hfeed Hf) as (_ & Hwr & _).
           split_and!; [destruct Hst; congruence| |done].
           intros _. by rewrite chunksOf_snoc, Hwr.
      * destruct (deliver RDone p h) as [p' h'] eqn:Hd.
        destruct (deliver_ending_inv _ _ B _ _ RDone _ _ _ _ Hs Hw I Hd)
          as (Hs' & Hb & Hid' & HB' & Hst & Hsz').
        split; simpl; [congruence..|].
        eexists written, _. split_and!; [exact Hs'|auto|].
        intros Hf. apply Forall_app in Hf as [_ Hf].
        rewrite Forall_singleton in Hf. destruct Hf.
      * destruct (deliver (RError reason) p h) as [p' h'] eqn:Hd.
        destruct (deliver_ending_inv _ _ B _ _ (RError reason) _ _ _ _ Hs Hw I Hd)
          as (Hs' & Hb & Hid' & HB' & Hst & Hsz').
        split; simpl; [congruence..|].
        eexists written, _. split_and!; [exact Hs'|auto|].
        intros Hf. apply Forall_app in Hf as [_ Hf].
        rewrite Forall_singleton in Hf. destruct Hf.
    + assert (Hd : deliver r p h = (p, h)).
      { unfold deliver. by destruct (pipe_state p). }
      rewrite Hd. split; [done..|]. exists written, new. split_and!; try done.
      intros Hf. apply Forall_app in Hf as [Hf _].
      destruct (Hfeed Hf) as (Hnc & Hwr & Hnf). split_and!; try done.
  - destruct (timerFires p h) as [p' h'] eqn:Ht.
    destruct (timerFires_inv _ _ B _ _ _ _ _ _ Hs Ht)
      as (new' & Hs' & Hst & Hid' & HB' & Hsz').
    split; simpl; [congruence..|].
    exists written, new'. split_and!; try done; [auto|].
    intros Hf. apply Forall_app in Hf as [Hf _].
    rewrite Hst, chunksOf_snoc, app_nil_r. auto.
  - split; [done..|]. exists written, new. split_and!; try done.
    + by eapply SinkInv_host; [|exact Hs].
    + intros Hf. apply Forall_app in Hf as [Hf _].
      rewrite chunksOf_snoc, app_nil_r. auto.
Qed.

Lemma PipeInv_run es : PipeInv runId B h0 es (pipeRun es (openPipe runId B, h0)).
Proof.
  induction es as [|e es IH] using rev_ind; [apply PipeInv_init|].
  unfold pipeRun in *. rewrite foldl_snoc. by apply PipeInv_step.
Qed.

End Pipe.

End RecorderFacts.

Module RecorderClaims.

Import StreamRecorder RecorderSpec RecorderFacts Samples.

Lemma concat_length_bound (B : Z) (new : list (list NewRunMessage)) :
  Forall (fun b => 1 <= length b /\ (Z.of_nat (length b) <= B)%Z) new ->
  (Z.of_nat (length (concat new)) <= B * Z.of_nat (length new))%Z.
Proof.
  induction 1 as [|b new [_ Hb] _ IH]; simpl; [lia|].
  rewrite length_app. lia.
Qed.



(** C8.  With a batch size B of at least one, when N messages have been
    written and the stream then closes or aborts: at least N/B batches
    were handed to the database before the close, fewer than B records
    are buffered, the final flush hands over exactly those, and the
    batches handed over hold all N messages. *)
Theorem batched_flush_bound (runId : string) (B : Z) (h0 : Host)
    (es : list PipeEvent) (fin : ReadResult) :
  (1 <= B)%Z -> Forall feeds es -> ending fin ->
  let before := pipeRun es (openPipe runId B, h0) in
  let after := pipeStep before (Deliver fin) in
  let N := length (chunksOf es) in
  let r := length (batch (pipe_sink before.1)) in
  pipe_state before.1 = Writable ->
  (Z.of_nat N / B <= Z.of_nat (length (issued h0 before.2)))%Z /\
  (0 <= Z.of_nat r < B)%Z /\
  issued h0 after.2 =
    issued h0 before.2 ++ (if decide (r = 0) then [] else [batch (pipe_sink before.1)]) /\
  batch (pipe_sink after.1) = [] /\
  map rm_messageJson (concat (issued h0 after.2)) = chunksOf es.
Proof.
  intros HB Hfeed Hfin before after N r Hw. subst before after N r.
  destruct (PipeInv_run runId B h0 es) as [Hid HBs (written & new & Hs & Hsz & Hf)].
  destruct (Hf Hfeed) as (_ & Hwr & _). specialize (Hwr Hw). subst written.
  destruct (Hsz HB) as [Hall Hlt].
  destruct (SinkInv_count _ _ _ _ _ _ Hs) as [Hn Hsum].
  pose proof (concat_length_bound B new Hall) as Hbound.
  destruct (pipeRun es (openPipe runId B, h0)) as [p h]. simpl in *.
  destruct (deliver fin p h) as [p' h'] eqn:Hd.
  destruct (deliver_ending_inv _ _ B _ _ fin _ _ _ _ Hs Hw Hfin Hd)
    as (Hs' & Hb & _).
  simpl. rewrite (SinkInv_issued _ _ _ _ _ _ Hs), (SinkInv_issued _ _ _ _ _ _ Hs').
  split_and!.
  - apply Z.lt_succ_r, Z.div_lt_upper_bound; lia.
  - lia.
  - lia.
  - f_equal. destruct (batch (pipe_sink p)); simpl; by repeat case_decide.
  - done.
  - destruct Hs' as [_ _ H3 _ _ _]. by rewrite Hb, app_nil_r in H3.
Qed.

(** Five messages, batch size 2, then the close: two batches before the
    close, one record left for the final flush. *)
Lemma batched_flush_bound_witness :
  let es := map (fun t => Deliver (RChunk (assistantMessage "s1" t)))
                ["a"; "b"; "c"; "d"; "e"] in
  let before := pipeRun es (openPipe "r1" 2, hostWith []) in
  let after := pipeStep before (Deliver RDone) in
  ((1 <= 2)%Z /\ Forall feeds es /\ ending RDone /\ pipe_state before.1 = Writable) /\
  (Z.of_nat 5 / 2 <= Z.of_nat (length (issued (hostWith []) before.2)))%Z /\
  length (batch (pipe_sink before.1)) = 1 /\
  batch (pipe_sink after.1) = [] /\
  length (concat (issued (hostWith []) after.2)) = 5.
Proof.
  intros es before after.
  assert (Hf : Forall feeds es) by (repeat constructor).
  assert (HB : (1 <= 2)%Z) by done.
  assert (Hw : pipe_state before.1 = Writable) by reflexivity.
  pose proof (batched_flush_bound "r1" 2 (hostWith []) es RDone HB Hf I Hw)
    as (H1 & H2 & H3 & H4 & H5).
  split_and!; [exact HB|exact Hf|exact I|exact Hw|exact H1|reflexivity|exact H4|].
  apply (f_equal length) in H5. rewrite length_map in H5. exact H5.
Defined.

End RecorderClaims.

Module ExecutorFacts.

Import Executor ExecutorSpec.

Lemma resultPulledAt_app j hist e :
  resultPulledAt j hist -> resultPulledAt j (hist ++ [e]).
Proof.
  intros (m & isDone & Hj & Ht). exists m, isDone. split; [|done].
  by apply lookup_app_l_Some.
Qed.

Lemma resultPulledAt_lt j hist : resultPulledAt j hist -> j < length hist.
Proof. intros (m & isDone & Hj & _). by eapply lookup_lt_Some. Qed.

Lemma endsInputAt_snoc i hist e :
  endsInputAt i (hist ++ [e]) ->
  endsInputAt i hist \/ (i = length hist /\ e = InputEnd).
Proof.
  unfold endsInputAt. intros H.
  destruct (decide (i < length hist)) as [Hlt|Hge].
  - left. by rewrite lookup_app_l in H.
  - right. rewrite lookup_app_r in H by lia.
    destruct (i - length hist) as [|k] eqn:Hk; simpl in H; [|done].
    split; [lia|congruence].
Qed.

Lemma GateInv_execute params : GateInv (execute params).1.
Proof. split_and!; simpl; done. Qed.

(** Appending an event that is not the end of the input. *)
Lemma GateInv_observe e st g :
  e <> InputEnd -> (st = Finished -> promptState g = Finished) ->
  GateInv g -> GateInv (observe e st g).
Proof.
  intros He Hst (H1 & H2 & H3). split_and!; simpl.
  - intros i Hi. destruct (endsInputAt_snoc _ _ _ Hi) as [Hi'|[_ ?]]; [|done].
    destruct (H1 i Hi') as (j & Hj & Hr). exists j. split; [done|].
    by apply resultPulledAt_app.
  - intros Hr. destruct (H2 Hr) as (j & Hj). exists j. by apply resultPulledAt_app.
  - auto.
Qed.

(** Appending the end of the input, once the promise is resolved. *)
Lemma GateInv_finish g g' :
  GateInv g -> receivedResult g = true ->
  history g' = history g -> receivedResult g' = true ->
  GateInv (observe InputEnd Finished g').
Proof.
  intros (H1 & H2 & H3) Hr Hh Hr'. split_and!; simpl; rewrite ?Hh; try done.
  - intros i Hi. destruct (endsInputAt_snoc _ _ _ Hi) as [Hi'|[-> _]].
    + destruct (H1 i Hi') as (j & Hj & Hp). exists j. split; [done|].
      by apply resultPulledAt_app.
    + destruct (H2 Hr) as (j & Hp). exists j.
      split; [by eapply resultPulledAt_lt|by apply resultPulledAt_app].
  - intros _. destruct (H2 Hr) as (j & Hp). exists j. by apply resultPulledAt_app.
Qed.

Lemma GateInv_promptNext g : GateInv g -> GateInv (promptNext g).
Proof.
  intros Hinv. unfold promptNext.
  destruct (promptState g) eqn:Hst; try done.
  - by apply GateInv_observe.
  - destruct (receivedResult g) eqn:Hr.
    + by eapply GateInv_finish.
    + destruct Hinv as (H1 & H2 & H3). by split_and!.
Qed.

Lemma GateInv_pull r g h : GateInv g -> GateInv (pull r g h).1.1.
Proof.
  intros Hinv. unfold pull.
  destruct (controller g); [|done..].
  destruct r as [value isDone|error]; [|by destruct Hinv as (? & ? & ?)].
  set (g0 := observe (Pulled value isDone) (promptState g) g).
  assert (Hinv0 : GateInv g0) by by apply GateInv_observe.
  assert (Hinv1 : GateInv (if isResult value then done g0 else g0)).
  { destruct (isResult value) eqn:Hres; [|done].
    assert (Hpulled : resultPulledAt (length (history g)) (history g0)).
    { destruct value as [m|]; [|done]. simpl in Hres.
      apply bool_decide_eq_true in Hres. exists m, isDone. split; [|done].
      simpl. by rewrite lookup_app_r, Nat.sub_diag by lia. }
    unfold done. destruct (promptState g0) eqn:Hst.
    1, 2, 4: destruct Hinv0 as (H1 & H2 & H3); split_and!; simpl; eauto.
    eapply (GateInv_finish
      {| userMessage := userMessage g0; receivedResult := true;
         promptState := promptState g0; controller := controller g0;
         history := history g0 |}); try done.
    destruct Hinv0 as (H1 & H2 & H3); split_and!; simpl; eauto. }
  destruct isDone; [by destruct Hinv1 as (? & ? & ?)|].
  by destruct value.
Qed.

Lemma GateInv_run es gh : GateInv gh.1 -> GateInv (gateRun es gh).1.
Proof.
  intros H. unfold gateRun.
  apply (foldl_preserves gateStep (fun gh => GateInv gh.1)); [done|].
  intros [g h] [|r] Hg; simpl in *.
  - by apply GateInv_promptNext.
  - pose proof (GateInv_pull r g h Hg) as Hp.
    by destruct (pull r g h) as [[g' it] h'].
Qed.

(** C6.  Whatever the provider does with a call of [execute], the end of
    the input is signalled only after a message of type 'result' was
    pulled from its output: every end of input in the history of the
    gate comes after such a pull, and a prompt generator that has
    completed has seen the promise resolved by one. *)
Theorem input_open_until_result (params : ExecuteParams) (h : Host)
    (es : list GateStep) :
  let g := (gateRun es ((execute params).1, h)).1 in
  (forall i, endsInputAt i (history g) ->
             exists j, j < i /\ resultPulledAt j (history g)) /\
  (promptState g = Finished -> exists j, resultPulledAt j (history g)).
Proof.
  intros g. subst g.
  destruct (GateInv_run es ((execute params).1, h) (GateInv_execute params))
    as (H1 & H2 & H3).
  split; [done|]. auto.
Qed.

(** The gate does end the input once the result was pulled: the
    provider takes the user message, asks again, and yields an init
    message and the result. *)
Example input_ends_after_result :
  let params := {| ep_cwd := "/tmp"; ep_prompt := "2+2"; ep_images := [];
                   ep_options := []; ep_sessionId := None;
                   ep_abortController := None |} in
  let result := mkMessage "result" (Some "success") "s1" "4" in
  let g := (gateRun [ProviderAsksInput; ProviderAsksInput;
                     ProviderAnswers (Settled (Some (mkMessage "system" (Some "init") "s1" "")) false);
                     ProviderAnswers (Settled (Some result) false)]
                    ((execute params).1, {| db := mkDb [] [] [] []; logs := []; clock := 0 |})).1 in
  promptState g = Finished /\
  history g =
    [InputMessage (userMessage g);
     Pulled (Some (mkMessage "system" (Some "init") "s1" "")) false;
     Pulled (Some result) false;
     InputEnd].
Proof. by vm_compute. Qed.

End ExecutorFacts.

Module RunManagerFacts.

Import Executor StreamRecorder RunManager RunManagerSpec.

(** *** The calls do not depend on the recorders *)



Lemma agree_refl w : agree w w.
Proof. done. Qed.



Lemma pull_host r g h :
  db (pull r g h).2 = db h /\ clock (pull r g h).2 = clock h.
Proof.
  unfold pull. destruct (controller g); [|done..].
  destruct r as [v d|e]; [|done]. destruct d; [done|]. by destruct v.
Qed.
























End RunManagerFacts.

Module IsolationClaims.

Import Executor StreamRecorder RecorderSpec RecorderFacts.
Import RunManager RunManagerSpec RunManagerFacts Samples.









End IsolationClaims.

Module CallFacts.

Import Executor StreamRecorder RunManager RunManagerSpec RunManagerFacts CallSpec Samples.

Lemma setHost_host w : setHost (host w) w = w.
Proof. by destruct w. Qed.

Lemma loopBody_frame m g rs f w :
  loopBody m (setStream g f) (setRecorders rs w) =
    (setStream g (loopBody m f w).1, setRecorders rs (loopBody m f w).2).
Proof. unfold loopBody. by destruct (isInit m). Qed.

Lemma processStream_frame ms g rs f w :
  processStream ms (setStream g f) (setRecorders rs w) =
    (setStream g (processStream ms f w).1, setRecorders rs (processStream ms f w).2).
Proof.
  revert f w. induction ms as [|m ms IH]; intros f w; [done|].
  unfold processStream in *. simpl. rewrite loopBody_frame. simpl.
  rewrite IH. by destruct (loopBody m f w).
Qed.

Lemma processStream_cons m ms f w :
  processStream (m :: ms) f w = processStream ms (loopBody m f w).1 (loopBody m f w).2.
Proof. unfold processStream. simpl. by destruct (loopBody m f w). Qed.

Lemma processStream_snoc ms m f w :
  processStream (ms ++ [m]) f w =
    loopBody m (processStream ms f w).1 (processStream ms f w).2.
Proof. unfold processStream. by rewrite foldl_snoc. Qed.

Lemma setRecorders_same w : setRecorders (recorders w) w = w.
Proof. by destruct w. Qed.

Lemma setStream_same f : setStream (fl_stream f) f = f.
Proof. by destruct f. Qed.

(** A message goes once around the loop. *)
Lemma onNext_yield m f w :
  controller (fl_stream f) = Open ->
  exists g rs,
    controller g = Open /\
    onNext (Settled (Some m) false) f w =
      (inl (setStream g (loopBody m f w).1), setRecorders rs (loopBody m f w).2).
Proof.
  intros Hopen. unfold onNext, pull. rewrite Hopen. cbn [isResult].
  set (g0 := observe _ _ _).
  set (g1 := if bool_decide (type m = "result") then done g0 else g0).
  rewrite setHost_host. simpl tee.
  exists g1, (alter (fun qp => (qp.1 ++ [RChunk m], qp.2)) (fl_runId f) (recorders w)).
  split.
  - subst g1 g0. destruct (bool_decide _); [|done].
    unfold done. simpl. by destruct (promptState (fl_stream f)).
  - by rewrite loopBody_frame.
Qed.

(** The end of the provider's stream takes the call out of the loop and
    through the rest of the [try] block. *)
Lemma onNext_end v f w :
  controller (fl_stream f) = Open ->
  exists rs,
    onNext (Settled v true) f w = (inr (complete f w).1, setRecorders rs (complete f w).2).
Proof.
  intros Hopen. unfold onNext, pull. rewrite Hopen.
  rewrite setHost_host. simpl tee. by eexists.
Qed.

(** A rejected [next ()] takes the call into the [catch] block. *)
Lemma onNext_throw e f w :
  controller (fl_stream f) = Open ->
  exists rs,
    onNext (Threw e) f w =
      (inr (failed e (callOf f) (logW ("[Executor] Stream error: " +:+ e) w)).1,
       setRecorders rs (failed e (callOf f) (logW ("[Executor] Stream error: " +:+ e) w)).2).
Proof.
  intros Hopen. unfold onNext, pull. rewrite Hopen. simpl tee. by eexists.
Qed.

Lemma consume_yields ms rest f w :
  controller (fl_stream f) = Open ->
  exists g rs,
    controller g = Open /\
    consume (yields ms ++ rest) f w =
      consume rest (setStream g (processStream ms f w).1)
                   (setRecorders rs (processStream ms f w).2).
Proof.
  revert f w. induction ms as [|m ms IH]; intros f w Hopen.
  - exists (fl_stream f), (recorders w). split; [done|].
    by rewrite setStream_same, setRecorders_same.
  - destruct (onNext_yield m f w Hopen) as (g1 & rs1 & Hg1 & Hn).
    simpl. rewrite Hn.
    destruct (IH (setStream g1 (loopBody m f w).1)
                 (setRecorders rs1 (loopBody m f w).2) Hg1) as (g & rs & Hg & Hc).
    exists g, rs. split; [done|]. rewrite Hc, processStream_frame.
    by rewrite processStream_cons.
Qed.

(** How a call can begin: case by case, from what holds of [openRun]. *)
Lemma begin_cases req runId opening w (P : CallResult * World -> Prop) :
  (forall e, upfront e -> P (Rejects e, w)) ->
  (forall line cwd prompt mode parent stream,
     controller stream.1 = Open ->
     P (openRun line runId cwd prompt mode parent stream opening w)) ->
  P (begin req runId opening w).
Proof.
  intros Hrej Hopen.
  destruct req as [p|p|p]; simpl;
    unfold resume_begin, fork_begin, start_begin, session_begin, executeRun_begin.
  - destruct (blank (sp_prompt p)); [by apply Hrej|].
    destruct (blank (sp_cwd p)); [by apply Hrej|]. by apply Hopen.
  - destruct (blank (rp_prompt p)); [by apply Hrej|].
    destruct (blank (rp_sessionId p)); [by apply Hrej|].
    destruct (selectRunBySession _ _); [by apply Hopen|by apply Hrej].
  - destruct (blank (rp_prompt p)); [by apply Hrej|].
    destruct (blank (rp_sessionId p)); [by apply Hrej|].
    destruct (selectRunBySession _ _); [by apply Hopen|by apply Hrej].
Qed.

Lemma begin_flight req runId opening w f w1 :
  begin req runId opening w = (Pending f, w1) ->
  opening = Resolved /\
  fl_runId f = runId /\ controller (fl_stream f) = Open /\
  fl_capturedSessionId f = "" /\ fl_resultMessage f = None /\
  fl_startTime f = clock (host w).
Proof.
  revert f w1. apply (begin_cases req runId opening w); [done|].
  intros line cwd prompt mode parent stream Hopen f w1. unfold openRun. simpl.
  destruct opening; [|done]. by intros [= <- <-].
Qed.

Lemma begin_rejects req runId opening w e w1 :
  begin req runId opening w = (Rejects e, w1) -> w1 = w /\ upfront e.
Proof.
  revert e w1. apply (begin_cases req runId opening w).
  - intros e He e' w1 [= <- <-]. done.
  - intros line cwd prompt mode parent stream Hopen e w1. unfold openRun. simpl.
    by destruct opening.
Qed.

(** A call returns before it reaches the loop only when [query] threw. *)
Lemma begin_returns req runId opening w r w1 :
  begin req runId opening w = (Returns r, w1) ->
  exists e, opening = Rejected e /\
    res_status r = StatusError /\ res_error r = Some e /\ res_runId r = runId.
Proof.
  revert r w1. apply (begin_cases req runId opening w); [done|].
  intros line cwd prompt mode parent stream Hopen r w1. unfold openRun. simpl.
  destruct opening as [|e]; [done|]. intros [= <- <-]. by exists e.
Qed.

(** *** What the loop does to the flight, the row and the object *)

Lemma initIds_snoc ms m :
  initIds (ms ++ [m]) = initIds ms ++ (if isInit m then [session_id m] else []).
Proof.
  unfold initIds. rewrite filter_app, fmap_app. f_equal.
  rewrite filter_cons, filter_nil. destruct (isInit m) eqn:Hi.
  - by rewrite decide_True.
  - by rewrite decide_False.
Qed.

Lemma sessionWrites_app runId j1 j2 :
  sessionWrites runId (j1 ++ j2) = sessionWrites runId j1 ++ sessionWrites runId j2.
Proof. unfold sessionWrites. apply omap_app. Qed.

Lemma getRun_updateRun id p d :
  getRun id (updateRun id p d) = applyPatch p <$> getRun id d.
Proof.
  unfold getRun, updateRun. simpl.
  induction (runTable d) as [|r rows IH]; [done|].
  simpl. rewrite !filter_cons. destruct (decide (run_id r = id)) as [Heq|Hne].
  - rewrite decide_True by done. done.
  - rewrite decide_False by done. done.
Qed.

Lemma getRun_insertRun row d :
  getRun (run_id row) d = None -> getRun (run_id row) (insertRun row d) = Some row.
Proof.
  unfold getRun, insertRun. simpl. intros Hnone.
  rewrite filter_app. destruct (filter _ (runTable d)); [|done].
  simpl. rewrite filter_cons, decide_True by done. done.
Qed.

(** The flight after the loop. *)
Lemma processStream_flight ms f w :
  let f' := (processStream ms f w).1 in
  fl_runId f' = fl_runId f /\ fl_mode f' = fl_mode f /\
  fl_parentSessionId f' = fl_parentSessionId f /\
  fl_startTime f' = fl_startTime f /\
  fl_capturedSessionId f' = default (fl_capturedSessionId f) (last (initIds ms)) /\
  (Forall (fun m => type m <> "result") ms -> fl_resultMessage f' = fl_resultMessage f).
Proof.
  induction ms as [|m ms IH] using rev_ind; [done|].
  rewrite processStream_snoc, initIds_snoc. simpl in *.
  destruct IH as (H1 & H2 & H3 & H4 & H5 & H6).
  unfold loopBody. destruct (isInit m) eqn:Hi; simpl; split_and!; try done.
  - by rewrite last_snoc.
  - intros Hall. apply Forall_app in Hall as [Hall Hm].
    rewrite Forall_singleton in Hm. rewrite bool_decide_eq_false_2 by done. auto.
  - by rewrite app_nil_r.
  - intros Hall. apply Forall_app in Hall as [Hall Hm].
    rewrite Forall_singleton in Hm. rewrite bool_decide_eq_false_2 by done. auto.
Qed.

(** The world after the loop: only the row and the object of the run
    have changed, and only in their session id. *)
Lemma processStream_world ms f w :
  let w' := (processStream ms f w).2 in
  let change (A : Type) (g : string -> A -> A) (x : A) :=
    match last (initIds ms) with Some s => g s x | None => x end in
  journal (db (host w')) =
    journal (db (host w)) ++ ((fun s => UpdateRun (fl_runId f) (sessionPatch s)) <$> initIds ms) /\
  getRun (fl_runId f) (db (host w')) =
    change Run (fun s => applyPatch (sessionPatch s)) <$> getRun (fl_runId f) (db (host w)) /\
  heap w' !! fl_runId f = change ActiveRun setSessionId <$> heap w !! fl_runId f /\
  activeRuns w' = activeRuns w /\ clock (host w') = clock (host w) /\
  queries w' = queries w.
Proof.
  induction ms as [|m ms IH] using rev_ind.
  - simpl. rewrite app_nil_r. split_and!; try done.
    + by destruct (getRun _ _).
    + by destruct (heap w !! _).
  - rewrite processStream_snoc, initIds_snoc.
    destruct (processStream_flight ms f w) as (Hid & _).
    simpl in *. destruct IH as (H1 & H2 & H3 & H4 & H5 & H6).
    unfold loopBody. destruct (isInit m) eqn:Hi; simpl.
    + rewrite last_snoc, Hid. split_and!; try done.
      * by rewrite H1, fmap_app, app_assoc.
      * rewrite getRun_updateRun, H2.
        destruct (getRun (fl_runId f) (db (host w))); [|done].
        simpl. by destruct (last (initIds ms)).
      * rewrite lookup_alter_eq, H3.
        destruct (heap w !! fl_runId f); [|done].
        simpl. by destruct (last (initIds ms)).
    + by rewrite app_nil_r.
Qed.

(** What the beginning of a call leaves in the database and on the
    heap. *)
Lemma begin_world req runId w f w1 :
  begin req runId Resolved w = (Pending f, w1) ->
  getRun runId (db (host w)) = None ->
  exists row,
    journal (db (host w1)) = journal (db (host w)) ++ [InsertRun row] /\
    getRun runId (db (host w1)) = Some row /\
    run_id row = runId /\ run_sessionId row = "" /\ run_status row = StatusRunning /\
    run_resultType row = None /\ run_resultJson row = None /\
    (ar_sessionId <$> heap w1 !! runId) = Some "".
Proof.
  intros Ha Hfresh. revert f w1 Ha.
  apply (begin_cases req runId Resolved w); [done|].
  intros line cwd prompt mode parent stream Hopen f w1. unfold openRun. simpl.
  intros [= <- <-]. eexists. split_and!; try done.
  - simpl. by apply (getRun_insertRun (mkRun runId _ _ _ _ _ _ _ _ _ _)).
  - simpl. by rewrite lookup_insert_eq.
Qed.

(** *** No segment dispatches a webhook *)

Lemma onNext_webhooks r f w : webhooks (onNext r f w).2 = webhooks w.
Proof.
  unfold onNext. destruct (pull r (fl_stream f) (host w)) as [[g it] h].
  destruct it as [[m| |e]|]; simpl; try done.
  unfold loopBody. by destruct (isInit m).
Qed.

Lemma begin_webhooks req runId opening w :
  webhooks (begin req runId opening w).2 = webhooks w.
Proof.
  apply (begin_cases req runId opening w); [done|].
  intros line cwd prompt mode parent stream _. unfold openRun. simpl.
  by destruct opening.
Qed.

Lemma consume_webhooks script f w : webhooks (consume script f w).2 = webhooks w.
Proof.
  revert f w. induction script as [|r script IH]; intros f w; [done|].
  simpl. pose proof (onNext_webhooks r f w) as Hn.
  destruct (onNext r f w) as [[f'|res] w']; simpl in *; [|done].
  by rewrite IH.
Qed.

Lemma step_webhooks w e : webhooks (step w e) = webhooks w.
Proof.
  destruct e as [req runId opening|runId|runId|runId r|runId|runId|ms]; simpl; try done.
  - pose proof (begin_webhooks req runId opening w) as Ha.
    by destruct (begin req runId opening w) as [[e|f|r] w'].
  - unfold cancel. by destruct (getActiveRun runId w).
  - destruct (flights w !! runId) as [f|]; [|done].
    pose proof (onNext_webhooks r f w) as Hn.
    by destruct (onNext r f w) as [[f'|res] w'].
  - destruct (recorders w !! runId) as [[[|it q] p]|]; try done.
    by destruct (deliver it p (host w)).
  - destruct (recorders w !! runId) as [[q p]|]; [|done].
    by destruct (timerFires p (host w)).
Qed.

End CallFacts.

Module CallClaims.

Import Executor StreamRecorder RunManager RunManagerSpec RunManagerFacts.
Import CallSpec CallFacts Samples.

(** C1.  The code dispatches no lifecycle notification at all: whatever
    happens to the process, and whatever webhook URL a call carries, the
    list of requests handed to [dispatchWebhook] stays as it was; a
    fresh run with a webhook URL that runs to its result leaves it
    empty. *)
Theorem lifecycle_notifications_never_dispatched :
  (forall es w, webhooks (run es w) = webhooks w) /\
  (forall req runId opening script w,
     webhooks (perform req runId opening script w).2 = webhooks w) /\
  webhooks
    (start sampleStart "r1"
       (yields [initMessage "s1"; resultMessage "s1" "success"] ++ [Settled None true])
       (boot 0 [])).2 = [].
Proof.
  split_and!.
  - intros es w. unfold run.
    apply (foldl_preserves step (fun w' => webhooks w' = webhooks w)); [done|].
    intros a e Ha. by rewrite step_webhooks.
  - intros req runId opening script w. unfold perform.
    pose proof (begin_webhooks req runId opening w) as Ha.
    destruct (begin req runId opening w) as [[e|f|r] w1]; [done| |done].
    pose proof (consume_webhooks script f w1) as Hc.
    destruct (consume script f w1) as [[f'|res] w']; simpl in *; congruence.
  - by vm_compute.
Qed.


End CallClaims.

Module RunClaims.

Import Executor StreamRecorder RunManager RunManagerSpec RunManagerFacts.
Import CallSpec CallFacts Samples.

(** C10.  A call whose stream ends without an exception and without a
    message of type 'result' returns status completed with no result,
    and its row has status completed, no result type and a null result
    JSON. *)
Theorem stream_without_result_completes (req : Request) (runId : string) (w : World)
    (ms : list SDKMessage) (v : option SDKMessage) :
  Forall (fun m => type m <> "result") ms ->
  getRun runId (db (host w)) = None ->
  match perform req runId Resolved (yields ms ++ [Settled v true]) w with
  | (Rejects e, w') => upfront e /\ w' = w
  | (Pending _, _) => False
  | (Returns r, w') =>
      res_status r = StatusCompleted /\ res_result r = None /\ res_error r = None /\
      exists row,
        getRun runId (db (host w')) = Some row /\
        run_status row = StatusCompleted /\
        run_resultType row = None /\ run_resultJson row = None
  end.
Proof.
  intros Hnone Hfresh. unfold perform.
  destruct (begin req runId Resolved w) as [[e|f|r] w1] eqn:Ha;
    [destruct (begin_rejects _ _ _ _ _ _ Ha); by split|
    |by destruct (begin_returns _ _ _ _ _ _ Ha) as (? & ? & _)].
  destruct (begin_flight _ _ _ _ _ _ Ha) as (_ & Hid & Hopen & _ & Hres & _).
  destruct (begin_world _ _ _ _ _ Ha Hfresh)
    as (row & _ & Hrow & _ & _ & _ & Hty & Hjs & _).
  destruct (consume_yields ms [Settled v true] f w1 Hopen) as (g & rs & Hg & ->).
  simpl. destruct (onNext_end v (setStream g (processStream ms f w1).1)
                     (setRecorders rs (processStream ms f w1).2) Hg) as (rs' & ->).
  destruct (processStream_flight ms f w1) as (Hid' & _ & _ & _ & _ & Hkeep).
  destruct (processStream_world ms f w1) as (_ & Hget & _).
  simpl in *. rewrite (Hkeep Hnone), Hres. simpl. split_and!; try done.
  rewrite Hid', Hid, getRun_updateRun. rewrite Hid, Hrow in Hget. rewrite Hget.
  simpl. eexists. split; [done|].
  destruct (last (initIds ms)); simpl; by rewrite ?Hty, ?Hjs.
Qed.

(** A fresh run of two messages, none of them a result. *)
Lemma stream_without_result_completes_witness :
  let ms := [initMessage "s1"; assistantMessage "s1" "4"] in
  Forall (fun m => type m <> "result") ms /\
  getRun "r1" (db (host (boot 0 []))) = None /\
  match perform (ReqStart sampleStart) "r1" Resolved (yields ms ++ [Settled None true]) (boot 0 []) with
  | (Rejects e, w') => upfront e /\ w' = boot 0 []
  | (Pending _, _) => False
  | (Returns r, w') =>
      res_status r = StatusCompleted /\ res_result r = None /\ res_error r = None /\
      exists row,
        getRun "r1" (db (host w')) = Some row /\
        run_status row = StatusCompleted /\
        run_resultType row = None /\ run_resultJson row = None
  end.
Proof.
  intros ms.
  assert (Hms : Forall (fun m => type m <> "result") ms) by (repeat constructor; done).
  split_and!; [exact Hms|reflexivity|].
  exact (stream_without_result_completes (ReqStart sampleStart) "r1" (boot 0 [])
           ms None Hms eq_refl).
Defined.

(** That call does return. *)
Example stream_without_result_returns :
  (start sampleStart "r1"
     (yields [initMessage "s1"; assistantMessage "s1" "4"] ++ [Settled None true])
     (boot 0 [])).1 =
  Returns {| res_runId := "r1"; res_sessionId := "s1"; res_parentSessionId := None;
             res_mode := ModeFresh; res_status := StatusCompleted; res_durationMs := 0;
             res_result := None; res_error := None |}.
Proof. by vm_compute. Qed.

Lemma sessionWrites_updates runId ids :
  sessionWrites runId ((fun s => UpdateRun runId (sessionPatch s)) <$> ids) = ids.
Proof.
  induction ids as [|s ids IH]; [done|].
  rewrite fmap_cons.
  change (sessionWrites runId
            ([UpdateRun runId (sessionPatch s)] ++
             ((fun s => UpdateRun runId (sessionPatch s)) <$> ids)) = s :: ids).
  rewrite sessionWrites_app, IH. unfold sessionWrites. simpl.
  by rewrite decide_True.
Qed.

Lemma sessionWrites_final runId id p :
  set_sessionId p = None -> sessionWrites runId [UpdateRun id p] = [].
Proof. intros Hp. unfold sessionWrites. simpl. rewrite Hp. by destruct (decide _). Qed.

(** C9, as stated, fails: a second init message sets the session id a
    second time.  Here the provider emits two init messages; the row's
    session id is written twice and ends as the second. *)
Lemma session_id_set_twice :
  let w' := (start sampleStart "r1" (yields [initMessage "s1"; initMessage "s2"])
               (boot 0 [])).2 in
  sessionWrites "r1" (journal (db (host w'))) = ["s1"; "s2"] /\
  (run_sessionId <$> getRun "r1" (db (host w'))) = Some "s2" /\
  (ar_sessionId <$> heap w' !! "r1") = Some "s2".
Proof. vm_compute. done. Qed.

(** C9, amended.  From the creation of the run until an init message is
    observed, the session id of the ActiveRun and of the Run row is the
    empty string; every init message observed sets both, with one write
    to the row, to the session id it carries.  So while the call is in
    its loop both hold the session id of the last init message, the
    writes to the row's session id are those of the init messages, in
    order, and the end of the call adds none: the session id is set
    exactly once when the provider emits exactly one init message. *)
Theorem session_id_follows_init_messages (req : Request) (runId : string) (w : World)
    (ms : list SDKMessage) :
  getRun runId (db (host w)) = None ->
  let current := default "" (last (initIds ms)) in
  match perform req runId Resolved (yields ms) w with
  | (Rejects e, w') => upfront e /\ w' = w
  | (Returns _, _) => False
  | (Pending f', w') =>
      fl_capturedSessionId f' = current /\
      (ar_sessionId <$> heap w' !! runId) = Some current /\
      (run_sessionId <$> getRun runId (db (host w'))) = Some current /\
      sessionWrites runId (journal (db (host w'))) =
        sessionWrites runId (journal (db (host w))) ++ initIds ms
  end /\
  (forall fin,
     match fin with Settled _ true | Threw _ => True | _ => False end ->
     match perform req runId Resolved (yields ms ++ [fin]) w with
     | (Rejects e, w') => upfront e /\ w' = w
     | (Pending _, _) => False
     | (Returns r, w') =>
         (run_sessionId <$> getRun runId (db (host w'))) = Some current /\
         sessionWrites runId (journal (db (host w'))) =
           sessionWrites runId (journal (db (host w))) ++ initIds ms
     end).
Proof.
  intros Hfresh current. unfold perform.
  destruct (begin req runId Resolved w) as [[e|f|r] w1] eqn:Ha;
    [destruct (begin_rejects _ _ _ _ _ _ Ha); split; [by split|]; intros fin _; by split|
    |by destruct (begin_returns _ _ _ _ _ _ Ha) as (? & ? & _)].
  destruct (begin_flight _ _ _ _ _ _ Ha) as (_ & Hid & Hopen & Hcap & _).
  destruct (begin_world _ _ _ _ _ Ha Hfresh)
    as (row & Hj & Hrow & _ & Hsid & _ & _ & _ & Hheap).
  destruct (processStream_flight ms f w1) as (Hid' & _ & _ & _ & Hcap' & _).
  destruct (processStream_world ms f w1) as (Hj' & Hget & Hhp & _).
  simpl in Hid', Hcap', Hj', Hget, Hhp.
  rewrite Hid in Hj', Hget, Hhp. rewrite Hrow in Hget. rewrite Hcap in Hcap'.
  assert (Hwrites :
    sessionWrites runId (journal (db (host (processStream ms f w1).2))) =
      sessionWrites runId (journal (db (host w))) ++ initIds ms).
  { rewrite Hj', Hj, !sessionWrites_app, sessionWrites_updates.
    unfold sessionWrites at 2. simpl. by rewrite app_nil_r. }
  assert (Hrowid :
    (run_sessionId <$> getRun runId (db (host (processStream ms f w1).2))) = Some current).
  { rewrite Hget. subst current. simpl. destruct (last (initIds ms)); simpl; congruence. }
  split.
  - destruct (consume_yields ms [] f w1 Hopen) as (g & rs & Hg & Hc).
    rewrite app_nil_r in Hc. rewrite Hc. simpl. split_and!; try done.
    rewrite Hhp. subst current.
    destruct (heap w1 !! runId) as [a|]; [|done]. simpl in *.
    destruct (last (initIds ms)); simpl; congruence.
  - intros fin Hfin.
    destruct (consume_yields ms [fin] f w1 Hopen) as (g & rs & Hg & ->).
    destruct fin as [v [|]|e]; try done; simpl.
    + destruct (onNext_end v (setStream g (processStream ms f w1).1)
                  (setRecorders rs (processStream ms f w1).2) Hg) as (rs' & ->).
      simpl. rewrite Hid', Hid, getRun_updateRun, sessionWrites_app.
      rewrite sessionWrites_final by done. rewrite app_nil_r. split; [|done].
      destruct (getRun runId (db (host (processStream ms f w1).2))) as [r0|];
        simpl in *; congruence.
    + destruct (onNext_throw e (setStream g (processStream ms f w1).1)
                  (setRecorders rs (processStream ms f w1).2) Hg) as (rs' & ->).
      simpl. rewrite Hid', Hid, getRun_updateRun, sessionWrites_app.
      rewrite sessionWrites_final by done. rewrite app_nil_r. split; [|done].
      destruct (getRun runId (db (host (processStream ms f w1).2))) as [r0|];
        simpl in *; congruence.
Qed.

(** A fresh run whose provider emits one init message and then another
    message. *)
Lemma session_id_follows_init_messages_witness :
  let ms := [initMessage "s1"; assistantMessage "s1" "4"] in
  getRun "r1" (db (host (boot 0 []))) = None /\
  match perform (ReqStart sampleStart) "r1" Resolved (yields ms) (boot 0 []) with
  | (Rejects e, w') => upfront e /\ w' = boot 0 []
  | (Returns _, _) => False
  | (Pending f', w') =>
      fl_capturedSessionId f' = "s1" /\
      (ar_sessionId <$> heap w' !! "r1") = Some "s1" /\
      (run_sessionId <$> getRun "r1" (db (host w'))) = Some "s1" /\
      sessionWrites "r1" (journal (db (host w'))) =
        sessionWrites "r1" (journal (db (host (boot 0 [])))) ++ initIds ms
  end.
Proof.
  intros ms. split; [reflexivity|].
  exact (proj1 (session_id_follows_init_messages (ReqStart sampleStart) "r1"
                  (boot 0 []) ms eq_refl)).
Defined.

(** There the session id is written once. *)
Example session_id_written_once :
  sessionWrites "r1"
    (journal (db (host (start sampleStart "r1"
                          (yields [initMessage "s1"; assistantMessage "s1" "4";
                                   resultMessage "s1" "success"] ++ [Settled None true])
                          (boot 0 [])).2))) = ["s1"].
Proof. by vm_compute. Qed.




(** What [cancel] does, in general. *)
Lemma cancel_unknown runId w :
  getActiveRun runId w = None ->
  cancel runId w = (Some (RunAlreadyCompletedError runId), w).
Proof. intros H. unfold cancel. by rewrite H. Qed.

Lemma cancel_running runId a w :
  getActiveRun runId w = Some a ->
  exists w',
    cancel runId w = (None, w') /\
    heap w' !! runId = Some (cancelled a) /\
    getActiveRun runId w' = None /\
    persistedStatus runId w' = (fun _ => StatusCancelled) <$> persistedStatus runId w /\
    journal (db (host w')) = journal (db (host w)) ++ [UpdateRun runId cancelPatch].
Proof.
  intros H. unfold cancel. rewrite H. eexists. split; [done|]. simpl. split_and!.
  - by rewrite lookup_insert_eq.
  - unfold getActiveRun. simpl. rewrite decide_False; [done|].
    intros Hin. apply elem_of_difference in Hin as [_ Hn].
    apply Hn. by apply elem_of_singleton.
  - unfold persistedStatus. simpl.
    rewrite getRun_updateRun. by destruct (getRun runId (db (host w))).
  - done.
Qed.

(** The end of a call writes its status whatever status the row has:
    for every run in flight, a cancel followed by the failure or the end
    of the provider's stream leaves error or completed, not cancelled. *)
Lemma terminal_write_ignores_cancel runId f a w r :
  flights w !! runId = Some f -> fl_runId f = runId ->
  controller (fl_stream f) = Open ->
  getActiveRun runId w = Some a ->
  is_Some (getRun runId (db (host w))) ->
  match r with Threw _ | Settled _ true => True | _ => False end ->
  let w1 := step w (CallCancel runId) in
  let w2 := step w1 (Answers runId r) in
  persistedStatus runId w1 = Some StatusCancelled /\
  persistedStatus runId w2 =
    Some match r with
         | Threw _ => StatusError
         | _ => if isError (fl_resultMessage f) then StatusError else StatusCompleted
         end.
Proof.
  intros Hf Hid Hopen Ha [row Hrow] Hr w1 w2. subst w1 w2.
  destruct (cancel_running runId a w Ha) as (w' & Hc & _ & _ & Hst & _).
  assert (Hfl : flights w' = flights w).
  { unfold cancel in Hc. rewrite Ha in Hc. by injection Hc as <-. }
  assert (Hrow' : is_Some (getRun runId (db (host w')))).
  { unfold persistedStatus in Hst. rewrite Hrow in Hst.
    destruct (getRun runId (db (host w'))); [by eexists|done]. }
  destruct Hrow' as [row' Hrow'].
  cbn [step]. rewrite Hc. split.
  { rewrite Hst. unfold persistedStatus. by rewrite Hrow. }
  cbn [step]. rewrite Hfl, Hf.
  destruct r as [v [|]|e]; try done.
  - destruct (onNext_end v f w' Hopen) as (rs & ->).
    unfold persistedStatus. simpl. rewrite Hid, getRun_updateRun, Hrow'. done.
  - destruct (onNext_throw e f w' Hopen) as (rs & ->).
    unfold persistedStatus. simpl. rewrite Hid, getRun_updateRun, Hrow'. done.
Qed.

(** C3: what the code does.  A run is cancelled after its first message:
    the row says cancelled, the entry is gone, the abort is signalled
    and a second cancel is refused.  The call is still in its loop; when
    the provider then fails the pending read, the call writes status
    error over cancelled, and when the stream just ends, completed. *)
Theorem cancelled_status_overwritten :
  let w1 := run (take 3 cancelledRun) (boot 0 []) in
  let w2 := run cancelledRun (boot 0 []) in
  (persistedStatus "r1" w1 = Some StatusCancelled /\
   getActiveRun "r1" w1 = None /\
   (ar_aborted <$> heap w1 !! "r1") = Some true /\
   rejected (step w1 (CallCancel "r1")) = [RunAlreadyCompletedError "r1"]) /\
  persistedStatus "r1" w2 = Some StatusError /\
  (res_status <$> settled w2) = [StatusError] /\
  persistedStatus "r1" (step w1 (ends "r1")) = Some StatusCompleted.
Proof. vm_compute. done. Qed.

(** The scenario of the design document: a fresh run whose provider
    yields an init message, an assistant message and a successful
    result; the recorder then takes what it was given. *)
Example fresh_run_scenario :
  let w := run ([Calls (ReqStart sampleStart) "r1" Resolved;
                 emits "r1" (initMessage "s1");
                 emits "r1" (assistantMessage "s1" "4");
                 emits "r1" (resultMessage "s1" "success");
                 ends "r1"] ++ replicate 4 (RecorderTakes "r1")) (boot 0 []) in
  (res_status <$> settled w) = [StatusCompleted] /\
  (res_sessionId <$> settled w) = ["s1"] /\
  (run_sessionId <$> getRun "r1" (db (host w))) = Some "s1" /\
  (rm_index <$> runMessageTable (db (host w))) = [0; 1; 2] /\
  activeRuns w = ∅.
Proof. vm_compute. done. Qed.

End RunClaims.

(** *** A call in isolation is one schedule of the process *)

Module Schedule.

Import Executor StreamRecorder RunManager RunManagerSpec RunManagerFacts.
Import CallSpec CallFacts Samples.

Lemma setFlights_same w : setFlights (flights w) w = w.
Proof. by destruct w. Qed.

Lemma setFlights_twice fs fs' w : setFlights fs (setFlights fs' w) = setFlights fs w.
Proof. done. Qed.

Lemma onNext_flights r f fs w :
  onNext r f (setFlights fs w) = ((onNext r f w).1, setFlights fs (onNext r f w).2).
Proof.
  unfold onNext. simpl.
  destruct (pull r (fl_stream f) (host w)) as [[g it] h].
  destruct it as [[m| |e]|]; simpl; try done.
  unfold loopBody. by destruct (isInit m).
Qed.

Lemma onNext_keeps r f w :
  flights (onNext r f w).2 = flights w /\
  match (onNext r f w).1 with inl f' => fl_runId f' = fl_runId f | inr _ => True end.
Proof.
  unfold onNext.
  destruct (pull r (fl_stream f) (host w)) as [[g it] h].
  destruct it as [[m| |e]|]; simpl; try done.
  unfold loopBody. by destruct (isInit m).
Qed.

Lemma consume_flights script f fs w :
  consume script f (setFlights fs w) =
    ((consume script f w).1, setFlights fs (consume script f w).2).
Proof.
  revert f w. induction script as [|r script IH]; intros f w; [done|].
  simpl. rewrite onNext_flights.
  destruct (onNext r f w) as [[f'|res] w']; simpl; [|done]. apply IH.
Qed.

Lemma consume_keeps script f w : flights (consume script f w).2 = flights w.
Proof.
  revert f w. induction script as [|r script IH]; intros f w; [done|].
  simpl. destruct (onNext_keeps r f w) as [Hfl _].
  destruct (onNext r f w) as [[f'|res] w']; simpl in *; [|done].
  by rewrite IH.
Qed.

(** Answers for a run that is not in flight change nothing. *)
Lemma run_answers_idle runId script w :
  flights w !! runId = None -> run (Answers runId <$> script) w = w.
Proof.
  intros Hnone. induction script as [|r script IH]; [done|].
  unfold run in *. simpl. by rewrite Hnone.
Qed.

Lemma run_answers script f w :
  flights w !! fl_runId f = Some f ->
  run (Answers (fl_runId f) <$> script) w =
    match consume script f w with
    | (inl f', w') => setFlights (<[fl_runId f := f']> (flights w)) w'
    | (inr res, w') => resolve res (setFlights (delete (fl_runId f) (flights w)) w')
    end.
Proof.
  revert f w. induction script as [|r script IH]; intros f w Hf.
  - simpl. by rewrite insert_id, setFlights_same.
  - unfold run in *. simpl. rewrite Hf.
    destruct (onNext_keeps r f w) as [Hfl Hid].
    destruct (onNext r f w) as [[f1|res] w1] eqn:Hn; simpl in Hfl, Hid.
    + rewrite Hfl. rewrite <- Hid.
      rewrite IH by (simpl; by rewrite lookup_insert_eq).
      rewrite consume_flights. rewrite Hid.
      destruct (consume script f1 w1) as [[f'|res] w']; simpl.
      * by rewrite insert_insert_eq.
      * by rewrite delete_insert_eq.
    + rewrite Hfl. apply (run_answers_idle (fl_runId f)). simpl.
      apply lookup_delete_eq.
Qed.

(** The call of [perform] is the process taking the call and then the
    provider's answers, one after the other. *)
Theorem perform_is_a_run (req : Request) (runId : string) (opening : Outcome)
    (script : list NextResult) (w : World) :
  flights w !! runId = None ->
  run (Calls req runId opening :: (Answers runId <$> script)) w =
    match perform req runId opening script w with
    | (Rejects e, w') => reject e w'
    | (Pending f, w') => setFlights (<[runId := f]> (flights w)) w'
    | (Returns res, w') => resolve res w'
    end.
Proof.
  intros Hnone. unfold run, perform. simpl.
  destruct (begin req runId opening w) as [[e|f|res] w1] eqn:Hb.
  - apply (run_answers_idle runId). simpl.
    destruct (begin_rejects _ _ _ _ _ _ Hb) as [-> _]. done.
  - destruct (begin_flight _ _ _ _ _ _ Hb) as (_ & Hid & _).
    assert (Hfl : flights w1 = flights w).
    { revert Hb. apply (begin_cases req runId opening w); [done|].
      intros line cwd prompt mode parent stream _. unfold openRun. simpl.
      destruct opening; [|done]. by intros [= <- <-]. }
    rewrite <- Hid. fold (run (Answers (fl_runId f) <$> script)
                            (setFlights (<[fl_runId f:=f]> (flights w1)) w1)).
    rewrite run_answers by (simpl; by rewrite lookup_insert_eq).
    rewrite consume_flights. pose proof (consume_keeps script f w1) as Hk.
    destruct (consume script f w1) as [[f'|r] w']; simpl in *.
    + by rewrite insert_insert_eq, Hfl.
    + rewrite delete_insert_eq.
      rewrite delete_id by (by rewrite Hfl, Hid).
      rewrite <- Hk, setFlights_twice. by rewrite setFlights_same.
  - apply (run_answers_idle runId). simpl.
    revert Hb. apply (begin_cases req runId opening w); [done|].
    intros line cwd prompt mode parent stream _. unfold openRun. simpl.
    destruct opening; [done|]. by intros [= <- <-].
Qed.

End Schedule.

(** ** The queries *)

Module QueryFacts.

Import StreamRecorder RecorderSpec RecorderFacts Queries QuerySpec.

#[global] Instance byIndex_total : Total byIndex.
Proof. intros a b. unfold byIndex. lia. Qed.

#[global] Instance byIndex_trans : Transitive byIndex.
Proof. intros a b c. unfold byIndex. lia. Qed.

#[global] Instance earlier_total : Total earlier.
Proof. intros [x|] [y|]; simpl; try tauto. lia. Qed.

#[global] Instance earlier_trans : Transitive earlier.
Proof. intros [x|] [y|] [z|]; simpl; try tauto. lia. Qed.

#[global] Instance earlier_antisymm : AntiSymm (=) earlier.
Proof. intros [x|] [y|]; simpl; try tauto. intros. f_equal. lia. Qed.

#[global] Instance earlier_refl : Reflexive earlier.
Proof. intros [x|]; simpl; [lia|done]. Qed.

#[global] Instance byCreatedAt_total : Total byCreatedAt.
Proof. intros a b. apply earlier_total. Qed.

#[global] Instance byCreatedAt_trans : Transitive byCreatedAt.
Proof. intros a b c. apply earlier_trans. Qed.

(** A list that is in order already, with no two elements that compare
    equal, is what the sort returns. *)
Lemma merge_sort_sorted {A} (R : relation A) `{!RelDecision R, !Total R, !Transitive R}
    (l : list A) :
  Sorted R l ->
  (forall x y, x ∈ l -> y ∈ l -> R x y -> R y x -> x = y) ->
  merge_sort R l = l.
Proof.
  intros Hs Hanti. apply (Sorted_unique_strong R).
  - intros x y Hx Hy. apply Hanti; [|done].
    by rewrite merge_sort_Permutation in Hx.
  - by apply Sorted_merge_sort.
  - done.
  - apply merge_sort_Permutation.
Qed.

Lemma fmap_nodup_inj {A B} (f : A -> B) (l : list A) x y :
  NoDup (f <$> l) -> x ∈ l -> y ∈ l -> f x = f y -> x = y.
Proof.
  intros Hnd Hx Hy Heq.
  apply list_elem_of_lookup in Hx as [i Hi]. apply list_elem_of_lookup in Hy as [j Hj].
  assert (i = j) as ->.
  { eapply NoDup_lookup; [exact Hnd|..].
    - by rewrite list_lookup_fmap, Hi.
    - by rewrite list_lookup_fmap, Hj, Heq. }
  congruence.
Qed.

(** Rows numbered consecutively are in the order of their index. *)
Lemma seq_sorted (l : list NewRunMessage) a n :
  rm_index <$> l = seq a n -> Sorted byIndex l.
Proof.
  revert a n. induction l as [|x l IH]; intros a n Hl; [constructor|].
  destruct n as [|n]; [done|]. simpl in Hl. injection Hl as Hx Hl.
  constructor; [by eapply IH|].
  destruct l as [|y l]; constructor.
  destruct n as [|n]; [done|]. simpl in Hl. injection Hl as Hy _.
  unfold byIndex. lia.
Qed.

Lemma seq_filter_from (l : list NewRunMessage) a n i :
  rm_index <$> l = seq a n ->
  filter (fun r => i <= rm_index r) l = drop (i - a) l.
Proof.
  revert a n. induction l as [|x l IH]; intros a n Hl; [by rewrite drop_nil|].
  destruct n as [|n]; [done|]. simpl in Hl. injection Hl as Hx Hl.
  rewrite filter_cons. specialize (IH _ _ Hl).
  destruct (decide (i <= rm_index x)) as [Hle|Hgt].
  - replace (i - a) with 0 by lia. rewrite IH.
    replace (i - S a) with 0 by lia. done.
  - rewrite IH. replace (i - a) with (S (i - S a)) by lia. done.
Qed.

Lemma filter_and_l {A} (P Q : A -> Prop) `{!forall x, Decision (P x), !forall x, Decision (Q x)}
    (l : list A) :
  filter (fun x => P x /\ Q x) l = filter Q (filter P l).
Proof.
  induction l as [|x l IH]; [done|].
  rewrite !filter_cons. destruct (decide (P x)) as [HP|HP].
  - rewrite filter_cons. destruct (decide (Q x)).
    + rewrite decide_True by done. by f_equal.
    + rewrite decide_False by tauto. done.
  - rewrite decide_False by tauto. done.
Qed.

Lemma filter_none {A} (P : A -> Prop) `{!forall x, Decision (P x)} (l : list A) :
  Forall (fun x => ~ P x) l -> filter P l = [].
Proof.
  induction 1 as [|x l Hx _ IH]; [done|]. by rewrite filter_cons, decide_False.
Qed.

Lemma filter_all {A} (P : A -> Prop) `{!forall x, Decision (P x)} (l : list A) :
  Forall P l -> filter P l = l.
Proof.
  induction 1 as [|x l Hx _ IH]; [done|]. rewrite filter_cons, decide_True by done.
  by f_equal.
Qed.

(** What [getMessages] finds in a table that holds, after rows of other
    runs, the rows [rows] of [runId], numbered from 0. *)
Lemma getMessages_numbered runId options old rows d :
  runMessageTable d = old ++ rows ->
  Forall (fun r => rm_runId r <> runId) old ->
  Forall (fun r => rm_runId r = runId) rows ->
  rm_index <$> rows = seq 0 (length rows) ->
  getMessages runId options d =
    rm_messageJson <$>
      (let query := drop (default 0 (qo_offset options))
                         (drop (default 0 (qo_fromIndex options)) rows) in
       match qo_limit options with
       | Some (S n) => take (S n) query
       | _ => query
       end).
Proof.
  intros Ht Hold Hrows Hseq. unfold getMessages. rewrite Ht.
  rewrite (filter_and_l (fun r => rm_runId r = runId)), filter_app.
  rewrite (filter_none _ old) by done. rewrite (filter_all _ rows) by done.
  simpl. rewrite (seq_filter_from rows 0 (length rows)) by done.
  rewrite Nat.sub_0_r.
  set (i := default 0 (qo_fromIndex options)).
  assert (Hd : rm_index <$> drop i rows = seq (0 + i) (length rows - i)).
  { by rewrite fmap_drop, Hseq, drop_seq. }
  assert (Hm : merge_sort byIndex (drop i rows) = drop i rows).
  { apply (merge_sort_sorted byIndex); [by eapply seq_sorted|].
    intros x y Hx Hy Hxy Hyx. eapply (fmap_nodup_inj rm_index); [|done..|].
    - rewrite Hd. apply NoDup_seq.
    - unfold byIndex in *. lia. }
  by rewrite Hm.
Qed.

Lemma getMessageCount_numbered runId old rows d :
  runMessageTable d = old ++ rows ->
  Forall (fun r => rm_runId r <> runId) old ->
  Forall (fun r => rm_runId r = runId) rows ->
  getMessageCount runId d = length rows.
Proof.
  intros Ht Hold Hrows. unfold getMessageCount.
  by rewrite Ht, filter_app, filter_none, filter_all.
Qed.

(** *** The timeout of a sink *)

Lemma Armed_flush s h : Armed s -> Armed (flush s h).1.2.
Proof.
  intros [H1 H2]. destruct (flush_cases s h) as [(Hb & ->)|(Hb & o & d & _ & ->)].
  - done.
  - split; simpl; [by destruct (flushTimer s)|]. split; [done|]. done.
Qed.

Lemma Armed_init : Armed createSink.
Proof. split; [done|]. simpl. split; [done|]. intros H. by destruct H. Qed.

Lemma Armed_write runId B m s h : Armed s -> Armed (write runId B m s h).1.2.
Proof.
  intros [H1 H2]. unfold write.
  set (s1 := {| index := S (index s) |}).
  assert (Ha : timerLive s1 = flushTimer s1 /\ batch s1 <> []).
  { split; [done|]. simpl. by destruct (batch s). }
  destruct (_ <=? _)%Z.
  - destruct (flush_cases s1 h) as [(Hb & ->)|(Hb & o & d & _ & ->)].
    + by destruct Ha.
    + split; simpl; [by destruct (flushTimer s)|]. split; [done|]. done.
  - simpl. unfold scheduleFlush. destruct (flushTimer s1) eqn:Hf.
    + split; [by destruct Ha|]. rewrite Hf. split; [by destruct Ha|done].
    + split; [done|]. simpl. split; [|done]. intros _. by destruct (batch s).
Qed.

Lemma Armed_abort reason s h : Armed s -> Armed (abort reason s h).1.2.
Proof.
  intros [H1 H2]. unfold abort.
  set (s0 := {| index := index s |}).
  destruct (flush_cases s0 h) as [(Hb & ->)|(Hb & o & d & _ & ->)].
  - simpl in *. destruct (flushTimer s) eqn:Hf.
    + destruct H2 as [H2 _]. by destruct (H2 eq_refl).
    + by split.
  - destruct o; simpl; split; try done; simpl; by destruct (flushTimer s).
Qed.

Lemma Armed_timerFires p h : Armed (pipe_sink p) -> Armed (pipe_sink (timerFires p h).1).
Proof.
  intros [H1 H2]. unfold timerFires.
  destruct (timerLive (pipe_sink p)) eqn:Hl; [|split; simpl; [congruence|done]].
  unfold onTimeout. set (s0 := {| index := index (pipe_sink p) |}).
  destruct (flush_cases s0 h) as [(Hb & ->)|(Hb & o & d & _ & ->)].
  - simpl in Hb. rewrite <- H1 in H2. destruct H2 as [H2 _]. by destruct (H2 eq_refl).
  - destruct o; simpl; split; try done; simpl; by destruct (flushTimer (pipe_sink p)).
Qed.

Lemma Armed_deliver r p h : Armed (pipe_sink p) -> Armed (pipe_sink (deliver r p h).1).
Proof.
  intros Ha. unfold deliver. destruct (pipe_state p); [|done..].
  destruct r as [m| |reason].
  - pose proof (Armed_write (pipe_runId p) (pipe_batchSize p) m _ h Ha) as Hw.
    by destruct (write _ _ _ _ _) as [[[|e] s1] h1].
  - pose proof (Armed_flush _ h Ha) as Hw. unfold close.
    by destruct (flush _ _) as [[[|e] s1] h1].
  - pose proof (Armed_abort reason _ h Ha) as Hw.
    by destruct (abort _ _ _) as [[[|e] s1] h1].
Qed.

Lemma Armed_run runId B h0 es : Armed (pipe_sink (pipeRun es (openPipe runId B, h0)).1).
Proof.
  unfold pipeRun. apply (foldl_preserves pipeStep (fun ph => Armed (pipe_sink ph.1))).
  - apply Armed_init.
  - intros [p h] [r| |ms] Ha; simpl in *; [by apply Armed_deliver|by apply Armed_timerFires|done].
Qed.

Lemma timerFires_empties p h :
  Armed (pipe_sink p) -> batch (pipe_sink (timerFires p h).1) = [].
Proof.
  intros [H1 H2]. unfold timerFires. destruct (timerLive (pipe_sink p)) eqn:Hl.
  - unfold onTimeout. set (s0 := {| index := index (pipe_sink p) |}).
    destruct (flush_cases s0 h) as [(Hb & ->)|(Hb & o & d & _ & ->)]; [done|].
    by destruct o.
  - destruct (batch (pipe_sink p)) eqn:Hb; [done|].
    rewrite <- H1 in H2. destruct H2 as [_ H2]. by discriminate H2.
Qed.

Lemma sink_rows runId h0 written new s h :
  SinkInv runId h0 written new s h -> batch s = [] -> insertFaults (db h0) = [] ->
  runMessageTable (db h) = runMessageTable (db h0) ++ concat new /\
  Forall (fun r => rm_runId r = runId) (concat new) /\
  rm_index <$> concat new = seq 0 (length (concat new)) /\
  rm_messageJson <$> concat new = written.
Proof.
  intros Hs Hb Hnf. destruct (SinkInv_count _ _ _ _ _ _ Hs) as [_ Hn].
  destruct Hs as [_ H2 H3 H4 _ H6]. rewrite Hb, app_nil_r in H2, H3, H4.
  rewrite Hb in Hn. simpl in Hn. rewrite Nat.add_0_r in Hn.
  destruct (H6 Hnf) as [_ Ht]. split_and!; try done. by rewrite <- Hn.
Qed.

(** The rows of a run once its stream has ended. *)
Lemma rows_after_end runId B h0 es fin :
  Forall feeds es -> ending fin -> insertFaults (db h0) = [] ->
  exists rows,
    runMessageTable (db (pipeRun (es ++ [Deliver fin]) (openPipe runId B, h0)).2) =
      runMessageTable (db h0) ++ rows /\
    Forall (fun r => rm_runId r = runId) rows /\
    rm_index <$> rows = seq 0 (length rows) /\
    rm_messageJson <$> rows = chunksOf es.
Proof.
  intros Hfeed Hfin Hnf.
  unfold pipeRun. rewrite foldl_snoc. fold (pipeRun es (openPipe runId B, h0)).
  destruct (PipeInv_run runId B h0 es) as [Hid HB (written & new & Hs & _ & Hf)].
  destruct (Hf Hfeed) as (_ & Hwr & Hw). specialize (Hw Hnf). specialize (Hwr Hw).
  destruct (pipeRun es (openPipe runId B, h0)) as [p h]. simpl in *.
  destruct (deliver fin p h) as [p' h'] eqn:Hd.
  destruct (deliver_ending_inv _ _ B _ _ fin _ _ _ _ Hs Hw Hfin Hd) as (Hs' & Hb & _).
  simpl. subst written. eexists. by apply (sink_rows _ _ _ _ _ _ Hs').
Qed.

(** The rows of a run once the timeout of its sink has fired. *)
Lemma rows_after_timeout runId B h0 es :
  Forall feeds es -> insertFaults (db h0) = [] ->
  exists rows,
    runMessageTable (db (pipeRun (es ++ [Timeout]) (openPipe runId B, h0)).2) =
      runMessageTable (db h0) ++ rows /\
    Forall (fun r => rm_runId r = runId) rows /\
    rm_index <$> rows = seq 0 (length rows) /\
    rm_messageJson <$> rows = chunksOf es.
Proof.
  intros Hfeed Hnf.
  assert (Hfeed' : Forall feeds (es ++ [Timeout])).
  { apply Forall_app. split; [done|]. by repeat constructor. }
  destruct (PipeInv_run runId B h0 (es ++ [Timeout])) as [_ _ (written & new & Hs & _ & Hf)].
  destruct (Hf Hfeed') as (_ & Hwr & Hw). specialize (Hw Hnf). specialize (Hwr Hw).
  rewrite chunksOf_snoc, app_nil_r in Hwr. subst written.
  exists (concat new). apply (sink_rows _ _ _ _ _ _ Hs); [|done].
  unfold pipeRun. rewrite foldl_snoc. fold (pipeRun es (openPipe runId B, h0)).
  pose proof (Armed_run runId B h0 es) as Ha.
  destruct (pipeRun es (openPipe runId B, h0)) as [p h]. simpl.
  by apply timerFires_empties.
Qed.

Lemma flush_empty s h : batch s = [] -> flush s h = (Resolved, s, h).
Proof. intros Hb. unfold flush. by rewrite Hb. Qed.

(** With a batch size of at most one nothing stays in the buffer. *)
Lemma unbuffered_step B h0 ph e :
  (B <= 1)%Z ->
  let K (ph : Pipe * Host) :=
    pipe_batchSize ph.1 = B /\ batch (pipe_sink ph.1) = [] /\
    exists new, handed (db ph.2) = handed (db h0) ++ new /\
                Forall (fun b : list NewRunMessage => length b = 1) new in
  K ph -> K (pipeStep ph e).
Proof.
  intros HB K. subst K. destruct ph as [p h]. simpl.
  intros (Hsz & Hb & new & Hh & Hall).
  destruct e as [r| |ms]; simpl.
  - unfold deliver. destruct (pipe_state p); [|by eauto..].
    destruct r as [m| |reason].
    + unfold write. rewrite Hb, Hsz. simpl.
      destruct (Z.leb_spec B (Z.of_nat 1)) as [_|Hgt]; [|lia].
      set (s1 := {| index := S (index (pipe_sink p)) |}).
      destruct (flush_cases s1 h) as [(Hb1 & _)|(_ & o & d & Hi & ->)]; [done|].
      destruct (insertMessages_spec _ _ _ _ Hi) as (Hh' & _).
      assert (exists new', handed d = handed (db h0) ++ new' /\
                Forall (fun b : list NewRunMessage => length b = 1) new').
      { exists (new ++ [batch s1]). rewrite Hh', Hh, <- app_assoc. split; [done|].
        apply Forall_app. split; [done|]. by repeat constructor. }
      by destruct o.
    + unfold close. rewrite flush_empty by done. simpl. eauto.
    + unfold abort. rewrite flush_empty by done. simpl. eauto.
  - unfold timerFires. destruct (timerLive (pipe_sink p)); [|by eauto].
    unfold onTimeout. rewrite flush_empty by done. simpl. eauto.
  - eauto.
Qed.

Section Maps.
Context {V : Type}.
Implicit Types (m : list (string * V)) (k : string) (v : V).

Lemma mapGet_mapSet k v m : mapGet k (mapSet k v m) = Some v.
Proof.
  induction m as [|[k' v'] m IH]; cbn [mapGet mapSet fmap list_fmap fst].
  - by rewrite decide_True.
  - destruct (decide (k' = k)); cbn [mapGet mapSet fmap list_fmap fst].
    + by rewrite decide_True.
    + by rewrite decide_False.
Qed.

Lemma mapGet_mapSet_ne k k' v m : k <> k' -> mapGet k (mapSet k' v m) = mapGet k m.
Proof.
  intros Hne. induction m as [|[k0 v0] m IH]; cbn [mapGet mapSet fmap list_fmap fst].
  - by rewrite decide_False.
  - destruct (decide (k0 = k')) as [->|Hk0]; cbn [mapGet mapSet fmap list_fmap fst].
    + by rewrite !decide_False.
    + destruct (decide (k0 = k)); [done|]. exact IH.
Qed.

Lemma mapGet_elem_of k v m : NoDup m.*1 -> mapGet k m = Some v <-> (k, v) ∈ m.
Proof.
  induction m as [|[k' v'] m IH]; cbn [mapGet mapSet fmap list_fmap fst]; intros Hnd.
  - split; [done|]. by intros ?%elem_of_nil.
  - apply NoDup_cons in Hnd as [Hk' Hnd]. rewrite elem_of_cons.
    destruct (decide (k' = k)) as [->|Hne].
    + split.
      * intros [= ->]. by left.
      * intros [[= ->]|Hin]; [done|]. destruct Hk'.
        apply list_elem_of_fmap. by exists (k, v).
    + rewrite (IH Hnd). split; [by right|].
      intros [[= <- _]|Hin]; [done|done].
Qed.

Lemma mapGet_None k m : mapGet k m = None <-> k ∉ m.*1.
Proof.
  induction m as [|[k' v'] m IH]; cbn [mapGet mapSet fmap list_fmap fst].
  - split; [|done]. intros _ ?%elem_of_nil. done.
  - rewrite not_elem_of_cons. destruct (decide (k' = k)) as [->|Hne].
    + split; [done|]. by intros [? _].
    + rewrite IH. split; [done|]. by intros [_ ?].
Qed.

Lemma mapSet_keys k v m :
  (mapSet k v m).*1 = if decide (k ∈ m.*1) then m.*1 else m.*1 ++ [k].
Proof.
  induction m as [|[k' v'] m IH]; cbn [mapGet mapSet fmap list_fmap fst].
  - rewrite decide_False; [done|]. by intros ?%elem_of_nil.
  - destruct (decide (k' = k)) as [->|Hne]; cbn [mapGet mapSet fmap list_fmap fst].
    + rewrite decide_True; [done|]. by left.
    + rewrite IH. destruct (decide (k ∈ m.*1)) as [Hin|Hnin].
      * rewrite decide_True; [done|]. by right.
      * rewrite decide_False; [done|]. rewrite not_elem_of_cons. done.
Qed.

Lemma mapSet_NoDup k v m : NoDup m.*1 -> NoDup (mapSet k v m).*1.
Proof.
  intros Hnd. rewrite mapSet_keys. case_decide; [done|].
  apply NoDup_app. split_and!; [done| |apply NoDup_singleton].
  intros x Hx ->%list_elem_of_singleton. done.
Qed.

End Maps.

Lemma ofSession_snoc k l r :
  ofSession k (l ++ [r]) =
    ofSession k l ++ (if decide (run_sessionId r = k) then [r] else []).
Proof. unfold ofSession. by rewrite filter_app, filter_cons, filter_nil. Qed.

Lemma summarise_None k runs : summarise k runs = None <-> runs = [].
Proof. by destruct runs. Qed.

Lemma summarise_snoc k runs r :
  summarise k (runs ++ [r]) =
    Some match summarise k runs with
         | Some existing =>
             {| ss_sessionId := ss_sessionId existing;
                ss_cwd := ss_cwd existing;
                ss_runCount := S (ss_runCount existing);
                ss_firstRunAt := ss_firstRunAt existing;
                ss_lastRunAt :=
                  match run_createdAt r with
                  | Some t => Some t
                  | None => ss_lastRunAt existing
                  end |}
         | None =>
             {| ss_sessionId := k;
                ss_cwd := run_cwd r;
                ss_runCount := 1;
                ss_firstRunAt := run_createdAt r;
                ss_lastRunAt := run_createdAt r |}
         end.
Proof.
  destruct runs as [|r0 runs].
  - cbn. by destruct (run_createdAt r).
  - rewrite <- app_comm_cons. cbn [summarise]. rewrite app_comm_cons.
    rewrite length_app, omap_app, Nat.add_1_r. cbn [omap list_omap].
    destruct (run_createdAt r); cbn [option_fmap option_map].
    + by rewrite last_snoc.
    + by rewrite app_nil_r.
Qed.

Lemma Grouped_nil : Grouped [] [].
Proof. split; [constructor|done]. Qed.

Lemma Grouped_group m l r : Grouped m l -> Grouped (group m r) (l ++ [r]).
Proof.
  intros [Hnd Hget]. unfold group.
  pose proof (Hget (run_sessionId r)) as Hr.
  split.
  - destruct (mapGet (run_sessionId r) m); by apply mapSet_NoDup.
  - intros k. rewrite ofSession_snoc.
    destruct (decide (run_sessionId r = k)) as [<-|Hne].
    + rewrite summarise_snoc, <- Hr.
      destruct (mapGet (run_sessionId r) m); by rewrite mapGet_mapSet.
    + rewrite app_nil_r, <- Hget.
      destruct (mapGet (run_sessionId r) m); by rewrite mapGet_mapSet_ne.
Qed.

Lemma Grouped_foldl l : Grouped (foldl group [] l) l.
Proof.
  induction l as [|r l IH] using rev_ind; [apply Grouped_nil|].
  rewrite foldl_snoc. by apply Grouped_group.
Qed.

Lemma ofSession_nil k l : ofSession k l = [] <-> k ∉ run_sessionId <$> l.
Proof.
  unfold ofSession. induction l as [|r l IH]; [split; [intros _ ?%elem_of_nil|]; done|].
  rewrite filter_cons, fmap_cons, not_elem_of_cons.
  destruct (decide (run_sessionId r = k)) as [Heq|Hne].
  - split; [done|]. by intros [? _].
  - rewrite IH. split; [by split|by intros [_ ?]].
Qed.

Lemma ofSession_perm k l1 l2 : l1 ≡ₚ l2 -> ofSession k l1 ≡ₚ ofSession k l2.
Proof. intros H. unfold ofSession. by rewrite H. Qed.

Lemma Grouped_keys m l k : Grouped m l -> k ∈ m.*1 <-> k ∈ run_sessionId <$> l.
Proof.
  intros [_ Hget]. specialize (Hget k).
  destruct (decide (k ∈ m.*1)) as [Hin|Hnin].
  - split; [|done]. intros _.
    destruct (decide (k ∈ run_sessionId <$> l)) as [|Hn]; [done|].
    apply ofSession_nil in Hn. rewrite Hn in Hget. simpl in Hget.
    by apply mapGet_None in Hget.
  - split; [done|]. intros Hl. apply mapGet_None in Hnin.
    rewrite Hnin in Hget. symmetry in Hget. apply summarise_None in Hget.
    by apply ofSession_nil in Hget.
Qed.

Lemma Grouped_entry m l k s :
  Grouped m l -> (k, s) ∈ m -> summarise k (ofSession k l) = Some s.
Proof. intros [Hnd Hget] Hin. rewrite <- Hget. by apply mapGet_elem_of. Qed.

Lemma summarise_id k runs s : summarise k runs = Some s -> ss_sessionId s = k.
Proof. destruct runs; [done|]. by intros [= <-]. Qed.

Lemma summarise_count k runs s : summarise k runs = Some s -> ss_runCount s = length runs.
Proof. destruct runs; [done|]. by intros [= <-]. Qed.

Lemma Grouped_ids m l : Grouped m l -> ss_sessionId <$> m.*2 = m.*1.
Proof.
  intros Hg.
  assert (Hall : Forall (fun ks => ss_sessionId ks.2 = ks.1) m).
  { apply Forall_forall. intros [k s] Hin. simpl.
    eapply summarise_id, Grouped_entry; done. }
  clear Hg. induction Hall as [|[k s] m Hks _ IH]; [done|].
  rewrite !fmap_cons. cbn [fst snd] in *. by rewrite Hks, IH.
Qed.

Lemma group_count m r :
  sum_list (ss_runCount <$> (group m r).*2) = S (sum_list (ss_runCount <$> m.*2)).
Proof.
  unfold group. induction m as [|[k s] m IH]; [done|].
  cbn [mapGet]. destruct (decide (k = run_sessionId r)) as [->|Hne].
  - cbn [mapSet]. rewrite decide_True by done. done.
  - destruct (mapGet (run_sessionId r) m) eqn:Hg; cbn [mapSet];
      rewrite decide_False by done; cbn [fmap list_fmap snd sum_list sum_list_with];
      cbn [fmap list_fmap snd sum_list sum_list_with] in IH; rewrite IH; lia.
Qed.

Lemma foldl_group_count l : sum_list (ss_runCount <$> (foldl group [] l).*2) = length l.
Proof.
  induction l as [|r l IH] using rev_ind; [done|].
  rewrite foldl_snoc, group_count, IH, length_app. simpl. lia.
Qed.

Lemma StronglySorted_filter {A} (R : relation A) (P : A -> Prop)
    `{!forall x, Decision (P x)} (l : list A) :
  StronglySorted R l -> StronglySorted R (filter P l).
Proof.
  induction 1 as [|x l Hs IH Hx]; [constructor|].
  rewrite filter_cons. destruct (decide (P x)); [|done].
  constructor; [done|]. apply Forall_forall. intros y Hy.
  apply list_elem_of_filter in Hy as [_ Hy]. by eapply Forall_forall in Hx.
Qed.

(** The times of the runs of a session come out the same whether the
    runs are sorted before or after the session is selected. *)
Lemma session_times k l :
  run_createdAt <$> ofSession k (merge_sort byCreatedAt l) =
  run_createdAt <$> merge_sort byCreatedAt (ofSession k l).
Proof.
  apply (Sorted_unique earlier).
  - apply (Sorted_fmap _ byCreatedAt); [done|].
    apply StronglySorted_Sorted, StronglySorted_filter, StronglySorted_merge_sort; apply _.
  - apply (Sorted_fmap _ byCreatedAt); [done|]. apply Sorted_merge_sort. apply _.
  - apply fmap_Permutation.
    etrans; [apply ofSession_perm, merge_sort_Permutation|].
    symmetry. apply merge_sort_Permutation.
Qed.

Lemma last_createdAt runs :
  Sorted byCreatedAt runs -> last runs ≫= run_createdAt = last (omap run_createdAt runs).
Proof.
  intros Hs. apply Sorted_StronglySorted in Hs; [|apply _].
  destruct runs as [|r runs _] using rev_ind; [done|].
  rewrite last_snoc, omap_app. cbn [omap list_omap mbind option_bind].
  destruct (run_createdAt r) as [t|] eqn:Hr; cbn [option_fmap option_map].
  - by rewrite last_snoc.
  - rewrite app_nil_r. apply StronglySorted_app in Hs as (Hle & _ & _).
    assert (Hnone : omap run_createdAt runs = []).
    { clear -Hle Hr. induction runs as [|x runs IH]; [done|].
      cbn [omap list_omap].
      assert (Hx : run_createdAt x = None).
      { specialize (Hle x r). unfold byCreatedAt in Hle. rewrite Hr in Hle.
        destruct (run_createdAt x); [|done].
        destruct Hle; [by left|by left]. }
      rewrite Hx. apply IH. intros y z Hy Hz. apply Hle; [by right|done]. }
    by rewrite Hnone.
Qed.

Lemma getSession_summarise k d : getSession k d = summarise k (getSessionRuns k d).
Proof.
  unfold getSession.
  assert (Hs : Sorted byCreatedAt (getSessionRuns k d)).
  { apply Sorted_merge_sort. apply _. }
  apply last_createdAt in Hs.
  destruct (getSessionRuns k d) as [|r runs]; [done|].
  rewrite decide_False by done. cbn [summarise head]. by rewrite Hs.
Qed.

(** Two lists of runs with the same times give summaries that differ
    at most in the working directory. *)
Lemma summarise_times k A B s :
  run_createdAt <$> A = run_createdAt <$> B ->
  summarise k A = Some s ->
  exists s', summarise k B = Some s' /\
    ss_sessionId s' = ss_sessionId s /\ ss_runCount s' = ss_runCount s /\
    ss_firstRunAt s' = ss_firstRunAt s /\ ss_lastRunAt s' = ss_lastRunAt s.
Proof.
  intros Ht. assert (Hl : length A = length B).
  { by rewrite <- (length_fmap run_createdAt A), Ht, length_fmap. }
  assert (Ho : omap run_createdAt A = omap run_createdAt B).
  { clear Hl. revert B Ht. induction A as [|a A IH]; intros [|b B] Ht; try done.
    rewrite !fmap_cons in Ht. injection Ht as Hab Ht.
    cbn [omap list_omap]. by rewrite Hab, (IH B Ht). }
  destruct A as [|a A]; [done|]. destruct B as [|b B]; [done|].
  rewrite !fmap_cons in Ht. injection Ht as Hab _.
  intros [= <-]. eexists. split; [done|]. cbn [summarise ss_sessionId ss_runCount
    ss_firstRunAt ss_lastRunAt].
  split_and!; [done|by symmetry|by symmetry|exact (f_equal last (eq_sym Ho))].
Qed.

Lemma newSet_snoc xs x :
  newSet (xs ++ [x]) = if decide (x ∈ newSet xs) then newSet xs else newSet xs ++ [x].
Proof. unfold newSet. by rewrite foldl_snoc. Qed.

Lemma newSet_elem_of xs x : x ∈ newSet xs <-> x ∈ xs.
Proof.
  induction xs as [|y xs IH] using rev_ind; [done|].
  rewrite newSet_snoc, elem_of_app, list_elem_of_singleton.
  destruct (decide (y ∈ newSet xs)) as [Hin|Hnin].
  - rewrite IH. split; [by left|]. intros [?| ->]; [done|]. by apply IH.
  - by rewrite elem_of_app, list_elem_of_singleton, IH.
Qed.

Lemma newSet_NoDup xs : NoDup (newSet xs).
Proof.
  induction xs as [|y xs IH] using rev_ind; [constructor|].
  rewrite newSet_snoc. case_decide; [done|].
  apply NoDup_app. split_and!; [done| |apply NoDup_singleton].
  by intros x Hx ->%list_elem_of_singleton.
Qed.

(** The loop of [getForkedSessions] keeps the summaries that exist. *)
Lemma summaries_omap (d : Db) ids :
  foldl (fun summaries forkedSessionId =>
           match getSession forkedSessionId d with
           | Some summary => summaries ++ [summary]
           | None => summaries
           end) [] ids =
  omap (fun k => getSession k d) ids.
Proof.
  induction ids as [|k ids IH] using rev_ind; [done|].
  rewrite foldl_snoc, omap_app, IH. cbn [omap list_omap].
  destruct (getSession k d); [done|by rewrite app_nil_r].
Qed.

Lemma getSessionRuns_perm k d : getSessionRuns k d ≡ₚ ofSession k (runTable d).
Proof. apply merge_sort_Permutation. Qed.

Lemma getSession_None k d : getSession k d = None <-> k ∉ run_sessionId <$> runTable d.
Proof.
  rewrite getSession_summarise, summarise_None, <- ofSession_nil.
  split; intros H.
  - apply Permutation_nil. by rewrite <- H, getSessionRuns_perm.
  - apply Permutation_nil. by rewrite <- H, getSessionRuns_perm.
Qed.

Lemma getSession_id k d s : getSession k d = Some s -> ss_sessionId s = k.
Proof. rewrite getSession_summarise. apply summarise_id. Qed.

Lemma getRun_elem id d row : getRun id d = Some row -> row ∈ runTable d /\ run_id row = id.
Proof.
  unfold getRun. intros H. apply head_Some_elem_of in H.
  apply list_elem_of_filter in H as [? ?]. done.
Qed.

Lemma getSessions_ids d k :
  k ∈ ss_sessionId <$> getSessions d <-> k ∈ run_sessionId <$> runTable d.
Proof.
  unfold getSessions.
  pose proof (Grouped_foldl (merge_sort byCreatedAt (runTable d))) as Hg.
  rewrite (Grouped_ids _ _ Hg), (Grouped_keys _ _ k Hg).
  by rewrite merge_sort_Permutation.
Qed.

Lemma getForkedSessions_ids sessionId d :
  ss_sessionId <$> getForkedSessions sessionId d =
    newSet (run_sessionId <$>
              filter (fun r => run_parentSessionId r = Some sessionId) (runTable d)).
Proof.
  unfold getForkedSessions. rewrite summaries_omap.
  set (forkRuns := filter _ (runTable d)).
  set (ids := newSet (run_sessionId <$> forkRuns)).
  assert (Hall : Forall (fun k => k ∈ run_sessionId <$> runTable d) ids).
  { apply Forall_forall. intros k Hk. unfold ids in Hk.
    apply (proj1 (newSet_elem_of _ _)) in Hk.
    apply list_elem_of_fmap in Hk as (r & -> & Hr).
    apply list_elem_of_filter in Hr as [_ Hr]. by apply list_elem_of_fmap_2. }
  clearbody ids. clear forkRuns. induction Hall as [|k ids Hk _ IH]; [done|].
  cbn [omap list_omap]. destruct (getSession k d) as [s|] eqn:Hs.
  - rewrite fmap_cons, IH. by rewrite (getSession_id _ _ _ Hs).
  - by apply getSession_None in Hs.
Qed.

End QueryFacts.

(** ** What the recorder stores and what the queries read *)

Module RecorderReads.
Import StreamRecorder RecorderSpec RecorderFacts Queries QuerySpec QueryFacts Samples.

(** X1.  What the recorder stores is what [getRunMessages] returns: when
    the database accepts the inserts and held no row of the run before,
    then once the stream of the run has closed or aborted,
    [getRunMessages] gives the messages the sink was handed, in the
    order it was handed them, and [getMessageCount] their number,
    whatever the batch size and the timeouts in between. *)
Theorem recorded_messages_read_back (runId : string) (B : Z) (h0 : Host)
    (es : list PipeEvent) (fin : ReadResult) :
  Forall feeds es -> ending fin -> insertFaults (db h0) = [] ->
  Forall (fun r => rm_runId r <> runId) (runMessageTable (db h0)) ->
  let d := db (pipeRun (es ++ [Deliver fin]) (openPipe runId B, h0)).2 in
  getRunMessages runId d = chunksOf es /\
  getMessageCount runId d = length (chunksOf es).
Proof.
  intros Hfeed Hfin Hnf Hold d. subst d.
  destruct (rows_after_end runId B h0 es fin Hfeed Hfin Hnf) as (rows & Ht & Hown & Hidx & Hjs).
  split.
  - unfold getRunMessages.
    rewrite (getMessages_numbered runId noOptions _ rows _ Ht Hold Hown Hidx).
    simpl. by rewrite drop_0.
  - rewrite (getMessageCount_numbered runId _ rows _ Ht Hold Hown).
    by rewrite <- Hjs, length_fmap.
Qed.

(** Three messages and a timeout, batch size 2, then the close. *)
Lemma recorded_messages_read_back_witness :
  let es := [Deliver (RChunk (initMessage "s1")); Timeout;
             Deliver (RChunk (assistantMessage "s1" "4"));
             Deliver (RChunk (resultMessage "s1" "success"))] in
  let d := db (pipeRun (es ++ [Deliver RDone]) (openPipe "r1" 2, hostWith [])).2 in
  (Forall feeds es /\ ending RDone /\ insertFaults (db (hostWith [])) = [] /\
   Forall (fun r => rm_runId r <> "r1") (runMessageTable (db (hostWith [])))) /\
  getRunMessages "r1" d = chunksOf es /\
  getMessageCount "r1" d = length (chunksOf es).
Proof.
  intros es d.
  assert (Hf : Forall feeds es) by (repeat constructor).
  assert (Ho : Forall (fun r => rm_runId r <> "r1") (runMessageTable (db (hostWith []))))
    by constructor.
  split; [split_and!; [exact Hf|exact I|reflexivity|exact Ho]|].
  exact (recorded_messages_read_back "r1" 2 (hostWith []) es RDone Hf I eq_refl Ho).
Defined.



(** X3.  A message does not wait for the batch to fill: when the
    database accepts the inserts and held no row of the run before,
    then once the timeout of the sink has fired, [getRunMessages] gives
    every message the sink was handed so far, in order, and the buffer
    is empty. *)
Theorem timeout_makes_messages_readable (runId : string) (B : Z) (h0 : Host)
    (es : list PipeEvent) :
  Forall feeds es -> insertFaults (db h0) = [] ->
  Forall (fun r => rm_runId r <> runId) (runMessageTable (db h0)) ->
  let ph := pipeRun (es ++ [Timeout]) (openPipe runId B, h0) in
  getRunMessages runId (db ph.2) = chunksOf es /\
  batch (pipe_sink ph.1) = [].
Proof.
  intros Hfeed Hnf Hold ph. subst ph.
  destruct (rows_after_timeout runId B h0 es Hfeed Hnf) as (rows & Ht & Hown & Hidx & Hjs).
  split.
  - unfold getRunMessages.
    rewrite (getMessages_numbered runId noOptions _ rows _ Ht Hold Hown Hidx).
    simpl. by rewrite drop_0.
  - unfold pipeRun. rewrite foldl_snoc. fold (pipeRun es (openPipe runId B, h0)).
    pose proof (Armed_run runId B h0 es) as Ha.
    destruct (pipeRun es (openPipe runId B, h0)) as [p h]. simpl.
    by apply timerFires_empties.
Qed.

(** One message with the default batch size of 50, then the timeout. *)
Lemma timeout_makes_messages_readable_witness :
  let es := [Deliver (RChunk (initMessage "s1"))] in
  let ph := pipeRun (es ++ [Timeout]) (openPipe "r1" defaultBatchSize, hostWith []) in
  (Forall feeds es /\ insertFaults (db (hostWith [])) = [] /\
   Forall (fun r => rm_runId r <> "r1") (runMessageTable (db (hostWith [])))) /\
  getRunMessages "r1" (db ph.2) = [initMessage "s1"] /\
  batch (pipe_sink ph.1) = [].
Proof.
  intros es ph.
  assert (Hf : Forall feeds es) by (repeat constructor).
  assert (Ho : Forall (fun r => rm_runId r <> "r1") (runMessageTable (db (hostWith []))))
    by constructor.
  split; [split_and!; [exact Hf|reflexivity|exact Ho]|].
  exact (timeout_makes_messages_readable "r1" defaultBatchSize (hostWith []) es Hf eq_refl Ho).
Defined.

(** X4.  The sink never holds records without a flush being scheduled,
    and never keeps a timeout for an empty buffer: after any events,
    with any batch size and any failures of the database, a timeout is
    scheduled exactly when the buffer is not empty. *)
Theorem buffered_records_have_a_timeout (runId : string) (B : Z) (h0 : Host)
    (es : list PipeEvent) :
  let s := pipe_sink (pipeRun es (openPipe runId B, h0)).1 in
  timerLive s = true <-> batch s <> [].
Proof.
  intros s. subst s. destruct (Armed_run runId B h0 es) as [H1 H2]. by rewrite H1.
Qed.

(** X5.  A batch size of one or less (zero and negative sizes included)
    turns batching off: after any events the buffer is empty and every
    batch handed to the database holds exactly one record; as long as
    the stream is writable these are the messages written, one insert
    per message, in order. *)
Theorem unit_batch_size_inserts_each_message (runId : string) (B : Z) (h0 : Host)
    (es : list PipeEvent) :
  (B <= 1)%Z ->
  let ph := pipeRun es (openPipe runId B, h0) in
  batch (pipe_sink ph.1) = [] /\
  Forall (fun b => length b = 1) (issued h0 ph.2) /\
  (Forall feeds es -> pipe_state ph.1 = Writable ->
   rm_messageJson <$> concat (issued h0 ph.2) = chunksOf es /\
   length (issued h0 ph.2) = length (chunksOf es)).
Proof.
  intros HB ph. subst ph.
  assert (HK : pipe_batchSize (pipeRun es (openPipe runId B, h0)).1 = B /\
               batch (pipe_sink (pipeRun es (openPipe runId B, h0)).1) = [] /\
               exists new, handed (db (pipeRun es (openPipe runId B, h0)).2) =
                             handed (db h0) ++ new /\
                           Forall (fun b : list NewRunMessage => length b = 1) new).
  { unfold pipeRun. apply (foldl_preserves pipeStep).
    - split_and!; [done..|]. exists []. by rewrite app_nil_r.
    - intros ph e. by apply unbuffered_step. }
  destruct HK as (_ & Hb & new & Hh & Hall).
  assert (Hi : issued h0 (pipeRun es (openPipe runId B, h0)).2 = new).
  { unfold issued. by rewrite Hh, drop_app_length. }
  rewrite Hi. split_and!; [done..|].
  intros Hfeed Hw.
  destruct (PipeInv_run runId B h0 es) as [_ _ (written & new' & Hs & _ & Hf)].
  destruct (Hf Hfeed) as (_ & Hwr & _). specialize (Hwr Hw). subst written.
  rewrite (SinkInv_issued _ _ _ _ _ _ Hs) in Hi. subst new'.
  destruct Hs as [_ _ H3 _ _ _]. rewrite Hb, app_nil_r in H3.
  split; [exact H3|].
  rewrite <- H3, length_fmap. clear -Hall.
  induction Hall as [|b new Hlen _ IH]; [done|].
  simpl. rewrite length_app, Hlen, <- IH. done.
Qed.

(** Three messages with batch size 0. *)
Lemma unit_batch_size_inserts_each_message_witness :
  let es := map (fun t => Deliver (RChunk (assistantMessage "s1" t))) ["a"; "b"; "c"] in
  let ph := pipeRun es (openPipe "r1" 0, hostWith []) in
  (0 <= 1)%Z /\
  batch (pipe_sink ph.1) = [] /\
  Forall (fun b => length b = 1) (issued (hostWith []) ph.2).
Proof.
  intros es ph.
  assert (HB : (0 <= 1)%Z) by done.
  pose proof (unit_batch_size_inserts_each_message "r1" 0 (hostWith []) es HB) as (H1 & H2 & _).
  split_and!; [exact HB|exact H1|exact H2].
Defined.

End RecorderReads.

(** ** The sessions derived from the runs *)

Module SessionReads.
Import Queries QuerySpec QueryFacts.

(** X6.  [getSessions] groups the runs by session id: every session id
    of the run table is listed exactly once, the [runCount] of an entry
    is the number of runs that carry its session id, and the counts add
    up to the number of runs.  A run whose session id is still empty is
    grouped under the empty id like any other. *)
Theorem sessions_grouped_by_id (d : Db) :
  let sessions := getSessions d in
  NoDup (ss_sessionId <$> sessions) /\
  (forall k, k ∈ ss_sessionId <$> sessions <-> k ∈ run_sessionId <$> runTable d) /\
  (forall s, s ∈ sessions ->
     ss_runCount s =
       length (filter (fun r => run_sessionId r = ss_sessionId s) (runTable d)) /\
     1 <= ss_runCount s) /\
  sum_list (ss_runCount <$> sessions) = length (runTable d).
Proof.
  intros sessions. subst sessions. unfold getSessions.
  set (sorted := merge_sort byCreatedAt (runTable d)).
  assert (Hp : sorted ≡ₚ runTable d) by apply merge_sort_Permutation.
  pose proof (Grouped_foldl sorted) as Hg.
  rewrite (Grouped_ids _ _ Hg).
  split_and!.
  - apply Hg.
  - intros k. rewrite (Grouped_keys _ _ k Hg). by rewrite Hp.
  - intros s Hs. apply list_elem_of_fmap in Hs as ([k s'] & -> & Hin). simpl.
    pose proof (Grouped_entry _ _ _ _ Hg Hin) as Hsum.
    rewrite (summarise_id _ _ _ Hsum), (summarise_count _ _ _ Hsum).
    split.
    + apply Permutation_length. by apply ofSession_perm.
    + destruct (ofSession k sorted); [done|]. simpl. lia.
  - rewrite foldl_group_count. by apply Permutation_length.
Qed.

(** X7.  [getSession] summarises the runs of one session: it is null
    exactly when no run carries the session id; otherwise [runCount] is
    the number of those runs, [firstRunAt] and [cwd] are taken from one
    of them and [lastRunAt] from one of them, and no run of the session
    was created before [firstRunAt] or after [lastRunAt]. *)
Theorem session_summary_spans_its_runs (k : string) (d : Db) :
  (getSession k d = None <-> k ∉ run_sessionId <$> runTable d) /\
  (forall s, getSession k d = Some s ->
     ss_sessionId s = k /\
     ss_runCount s = length (filter (fun r => run_sessionId r = k) (runTable d)) /\
     (exists r, r ∈ runTable d /\ run_sessionId r = k /\
                run_createdAt r = ss_firstRunAt s /\ run_cwd r = ss_cwd s) /\
     (exists r, r ∈ runTable d /\ run_sessionId r = k /\
                run_createdAt r = ss_lastRunAt s) /\
     (forall r, r ∈ runTable d -> run_sessionId r = k ->
                earlier (ss_firstRunAt s) (run_createdAt r) /\
                earlier (run_createdAt r) (ss_lastRunAt s))).
Proof.
  split; [apply getSession_None|].
  intros s. unfold getSession.
  pose proof (getSessionRuns_perm k d) as Hp.
  assert (Hs : StronglySorted byCreatedAt (getSessionRuns k d)).
  { apply StronglySorted_merge_sort; apply _. }
  assert (Hin : forall r, r ∈ getSessionRuns k d <-> r ∈ runTable d /\ run_sessionId r = k).
  { intros r. rewrite Hp. unfold ofSession. rewrite list_elem_of_filter. tauto. }
  destruct (getSessionRuns k d) as [|r0 runs] eqn:Hruns; [done|].
  rewrite decide_False by done. intros [= <-]. cbn [ss_sessionId ss_runCount ss_cwd
    ss_firstRunAt ss_lastRunAt head fmap option_fmap option_map default mbind option_bind].
  destruct (last (r0 :: runs)) as [rl|] eqn:Hlast; [|by apply last_None in Hlast].
  apply last_Some in Hlast as [front Hfront].
  split_and!.
  - done.
  - by apply Permutation_length in Hp.
  - exists r0. destruct (proj1 (Hin r0)) as [? ?]; [by left|]. done.
  - exists rl. destruct (proj1 (Hin rl)) as [? ?]; [|done].
    rewrite Hfront. apply elem_of_app. right. by left.
  - intros r Hr Hk. assert (Hr' : r ∈ r0 :: runs) by (by apply Hin).
    split.
    + apply StronglySorted_cons in Hs as [Hall _].
      apply elem_of_cons in Hr' as [->|Hr']; [apply earlier_refl|].
      by eapply Forall_forall in Hall.
    + rewrite Hfront in Hs, Hr'. apply StronglySorted_app in Hs as (Hle & _ & _).
      apply elem_of_app in Hr' as [Hr'|Hr'].
      * apply (Hle r rl); [done|by left].
      * apply list_elem_of_singleton in Hr' as ->. apply earlier_refl.
Qed.

(** X8.  The list of sessions and the summary of one session agree:
    every entry of [getSessions] has a summary under [getSession] with
    the same id, run count, first and last time, and every session
    [getSession] knows is listed by [getSessions]. *)
Theorem session_list_agrees_with_session (d : Db) :
  (forall s, s ∈ getSessions d ->
     exists s', getSession (ss_sessionId s) d = Some s' /\
       ss_sessionId s' = ss_sessionId s /\ ss_runCount s' = ss_runCount s /\
       ss_firstRunAt s' = ss_firstRunAt s /\ ss_lastRunAt s' = ss_lastRunAt s) /\
  (forall k s', getSession k d = Some s' -> k ∈ ss_sessionId <$> getSessions d).
Proof.
  pose proof (Grouped_foldl (merge_sort byCreatedAt (runTable d))) as Hg.
  split.
  - intros s Hs. unfold getSessions in Hs.
    apply list_elem_of_fmap in Hs as ([k s0] & -> & Hin). simpl.
    pose proof (Grouped_entry _ _ _ _ Hg Hin) as Hsum.
    pose proof (summarise_id _ _ _ Hsum) as Hid.
    destruct (summarise_times k _ (getSessionRuns k d) s0 (session_times k (runTable d)) Hsum)
      as (s' & Hs' & H1 & H2 & H3 & H4).
    exists s'. rewrite Hid, getSession_summarise. split_and!; congruence.
  - intros k s' Hk. unfold getSessions. rewrite (Grouped_ids _ _ Hg).
    apply (Grouped_keys _ _ k Hg). rewrite merge_sort_Permutation.
    destruct (decide (k ∈ run_sessionId <$> runTable d)) as [|Hn]; [done|].
    apply getSession_None in Hn. congruence.
Qed.

(** X9.  [getForkedSessions] lists the sessions of the runs whose parent
    is the given session: each such session id once, none other, each
    with the summary [getSession] gives for it.  The mode of the run is
    not looked at, so the session of a run that resumed the given
    session is listed like the session of a run that forked it. *)
Theorem forked_sessions_listed_once (sessionId : string) (d : Db) :
  let forks := getForkedSessions sessionId d in
  NoDup (ss_sessionId <$> forks) /\
  (forall k, k ∈ ss_sessionId <$> forks <->
             exists r, r ∈ runTable d /\ run_parentSessionId r = Some sessionId /\
                       run_sessionId r = k) /\
  (forall s, s ∈ forks -> getSession (ss_sessionId s) d = Some s).
Proof.
  intros forks. subst forks. unfold getForkedSessions. rewrite summaries_omap.
  set (forkRuns := filter _ (runTable d)).
  assert (Hruns : forall r, r ∈ forkRuns <->
                            r ∈ runTable d /\ run_parentSessionId r = Some sessionId).
  { intros r. unfold forkRuns. rewrite list_elem_of_filter. tauto. }
  set (ids := newSet (run_sessionId <$> forkRuns)).
  assert (Hids : ss_sessionId <$> omap (fun k => getSession k d) ids = ids).
  { assert (Hall : Forall (fun k => k ∈ run_sessionId <$> runTable d) ids).
    { apply Forall_forall. intros k Hk. unfold ids in Hk. apply (proj1 (newSet_elem_of _ _)) in Hk.
      apply list_elem_of_fmap in Hk as (r & -> & Hr). apply Hruns in Hr as [Hr _].
      by apply list_elem_of_fmap_2. }
    clear -Hall. induction Hall as [|k ids Hk _ IH]; [done|].
    cbn [omap list_omap]. destruct (getSession k d) as [s|] eqn:Hs.
    - rewrite fmap_cons, IH. by rewrite (getSession_id _ _ _ Hs).
    - by apply getSession_None in Hs. }
  rewrite Hids. split_and!.
  - apply newSet_NoDup.
  - intros k. unfold ids. rewrite newSet_elem_of, list_elem_of_fmap. split.
    + intros (r & -> & Hr). apply Hruns in Hr as [? ?]. by exists r.
    + intros (r & Hr & Hp & <-). exists r. split; [done|]. by apply Hruns.
  - intros s Hs. apply list_elem_of_omap in Hs as (k & _ & Hk).
    by rewrite (getSession_id _ _ _ Hk).
Qed.

End SessionReads.

(** ** The registry of active runs and the rows of the runs *)

Module RegistryFacts.
Import Executor StreamRecorder RunManager RunManagerSpec RunManagerFacts.
Import CallSpec CallFacts Schedule RegistrySpec.








Lemma tee_frame runId item w :
  host (tee runId item w) = host w /\ heap (tee runId item w) = heap w /\
  activeRuns (tee runId item w) = activeRuns w.
Proof. by destruct item. Qed.

Lemma loopBody_tracked m f w :
  Tracked f w -> Tracked (loopBody m f w).1 (loopBody m f w).2.
Proof.
  intros (row & Hrow & H1 & H2 & H3 & H4 & H5). unfold loopBody, Tracked.
  destruct (isInit m); simpl.
  - rewrite getRun_updateRun, Hrow, lookup_alter_eq. simpl.
    eexists. split; [done|]. simpl. split_and!; try done.
    by destruct (heap w !! fl_runId f).
  - by exists row.
Qed.

Lemma complete_matches f w : Tracked f w -> Matches (complete f w).1 (complete f w).2.
Proof.
  intros (row & Hrow & H1 & H2 & H3 & H4 & H5). unfold complete, Matches. simpl.
  rewrite getRun_updateRun, Hrow. simpl. eexists. split; [done|]. simpl.
  split_and!; try done.
  - rewrite H4. by destruct (fl_resultMessage f ≫= subtype).
Qed.

Lemma failed_matches e f w :
  Tracked f w -> Matches (failed e (callOf f) w).1 (failed e (callOf f) w).2.
Proof.
  intros (row & Hrow & H1 & H2 & H3 & H4 & H5). unfold failed, Matches. simpl.
  rewrite getRun_updateRun, Hrow. simpl. eexists. split; [done|]. simpl.
  split_and!; try done.
  by rewrite H5.
Qed.

Lemma tracked_frame f g w h rs :
  db h = db (host w) ->
  Tracked f w -> Tracked (setStream g f) (setRecorders rs (setHost h w)).
Proof.
  intros Hdb (row & Hrow & H). exists row. simpl. by rewrite Hdb.
Qed.

Lemma onNext_tracked r f w :
  Tracked f w ->
  match onNext r f w with
  | (inl f', w') => Tracked f' w'
  | (inr res, w') => Matches res w' /\ res_runId res = fl_runId f
  end.
Proof.
  intros Ht. unfold onNext.
  destruct (pull_host r (fl_stream f) (host w)) as [Hdb _].
  destruct (pull r (fl_stream f) (host w)) as [[g it] h]. simpl in Hdb.
  assert (Ht' : forall rs, Tracked (setStream g f) (setRecorders rs (setHost h w)))
    by (intros rs; by apply tracked_frame).
  destruct it as [[m| |e]|]; simpl.
  - pose proof (loopBody_tracked m _ _ (Ht' (alter (fun qp => (qp.1 ++ [RChunk m], qp.2))
                                            (fl_runId f) (recorders w)))) as Hl.
    by destruct (loopBody m _ _).
  - pose proof (complete_matches _ _ (Ht' (alter (fun qp => (qp.1 ++ [RDone], qp.2))
                                            (fl_runId f) (recorders w)))) as Hl.
    split; [exact Hl|done].
  - pose proof (failed_matches e _ _ (Ht' (alter (fun qp => (qp.1 ++ [RError e], qp.2))
                                            (fl_runId f) (recorders w)))) as Hl.
    split; [exact Hl|done].
  - rewrite <- (setRecorders_same (setHost h w)). apply Ht'.
Qed.

Lemma consume_tracked script f w :
  Tracked f w ->
  match consume script f w with
  | (inl f', w') => Tracked f' w'
  | (inr res, w') => Matches res w' /\ res_runId res = fl_runId f
  end.
Proof.
  revert f w. induction script as [|r script IH]; intros f w Ht; [done|].
  simpl. pose proof (onNext_tracked r f w Ht) as Hn.
  destruct (onNext_keeps r f w) as [_ Hid].
  destruct (onNext r f w) as [[f'|res] w']; simpl in *; [|done].
  specialize (IH f' w' Hn). rewrite Hid in IH. exact IH.
Qed.

Lemma begin_tracked req runId opening w :
  getRun runId (db (host w)) = None ->
  match begin req runId opening w with
  | (Rejects _, _) => True
  | (Pending f, w') => Tracked f w' /\ fl_runId f = runId
  | (Returns res, w') => Matches res w' /\ res_runId res = runId
  end.
Proof.
  intros Hfresh.
  apply (begin_cases req runId opening w
           (fun cw => match cw with
                      | (Rejects _, _) => True
                      | (Pending f, w') => Tracked f w' /\ fl_runId f = runId
                      | (Returns res, w') => Matches res w' /\ res_runId res = runId
                      end)); [done|].
  intros line cwd prompt mode parent stream _. unfold openRun. simpl.
  destruct opening as [|e]; simpl.
  - split; [|done]. unfold Tracked. simpl.
    rewrite (getRun_insertRun (mkRun runId _ _ _ _ _ _ _ _ _ _)) by done.
    eexists. split; [done|]. simpl. by rewrite lookup_insert_eq.
  - split; [|done]. unfold Matches. simpl.
    rewrite getRun_updateRun.
    rewrite (getRun_insertRun (mkRun runId _ _ _ _ _ _ _ _ _ _)) by done.
    eexists. split; [done|]. simpl. by rewrite lookup_insert_eq.
Qed.

Lemma perform_matches req runId opening script w res w' :
  getRun runId (db (host w)) = None ->
  perform req runId opening script w = (Returns res, w') ->
  Matches res w' /\ res_runId res = runId.
Proof.
  intros Hfresh. unfold perform.
  pose proof (begin_tracked req runId opening w Hfresh) as Hb.
  destruct (begin req runId opening w) as [[e|f|r] w1]; [done| |].
  - destruct Hb as [Ht Hid]. pose proof (consume_tracked script f w1 Ht) as Hc.
    destruct (consume script f w1) as [[f'|r] w2]; [done|].
    intros [= <- <-]. by rewrite <- Hid.
  - by intros [= <- <-].
Qed.

Lemma onNext_call r f w :
  match onNext r f w with
  | (inl f', _) => callOf f' = callOf f
  | (inr res, _) =>
      res_runId res = fl_runId f /\ res_mode res = fl_mode f /\
      res_parentSessionId res = fl_parentSessionId f
  end.
Proof.
  unfold onNext.
  destruct (pull r (fl_stream f) (host w)) as [[g it] h].
  destruct it as [[m| |e]|]; simpl; try done.
  unfold loopBody. by destruct (isInit m).
Qed.

Lemma consume_call script f w :
  match consume script f w with
  | (inl f', _) => callOf f' = callOf f
  | (inr res, _) =>
      res_runId res = fl_runId f /\ res_mode res = fl_mode f /\
      res_parentSessionId res = fl_parentSessionId f
  end.
Proof.
  revert f w. induction script as [|r script IH]; intros f w; [done|].
  simpl. pose proof (onNext_call r f w) as Hn.
  destruct (onNext r f w) as [[f'|res] w']; [|done].
  specialize (IH f' w'). destruct (consume script f' w') as [[f''|res] w''].
  - congruence.
  - injection Hn as H1 H2 H3 H4. by rewrite <- H1, <- H2, <- H3.
Qed.

(** The mode and the parent of the result of a call. *)
Lemma perform_call req runId opening script w res w' :
  perform req runId opening script w = (Returns res, w') ->
  res_mode res = match req with
                 | ReqStart _ => ModeFresh
                 | ReqResume _ => ModeResume
                 | ReqFork _ => ModeFork
                 end /\
  res_parentSessionId res = match req with
                            | ReqStart _ => None
                            | ReqResume p | ReqFork p => Some (rp_sessionId p)
                            end.
Proof.
  unfold perform.
  assert (Hb : match begin req runId opening w with
               | (Rejects _, _) => True
               | (Pending f, _) =>
                   fl_mode f = match req with
                               | ReqStart _ => ModeFresh
                               | ReqResume _ => ModeResume
                               | ReqFork _ => ModeFork
                               end /\
                   fl_parentSessionId f = match req with
                                          | ReqStart _ => None
                                          | ReqResume p | ReqFork p => Some (rp_sessionId p)
                                          end
               | (Returns res, _) =>
                   res_mode res = match req with
                                  | ReqStart _ => ModeFresh
                                  | ReqResume _ => ModeResume
                                  | ReqFork _ => ModeFork
                                  end /\
                   res_parentSessionId res = match req with
                                             | ReqStart _ => None
                                             | ReqResume p | ReqFork p => Some (rp_sessionId p)
                                             end
               end).
  { destruct req as [p|p|p]; simpl;
      unfold resume_begin, fork_begin, start_begin, session_begin, executeRun_begin, openRun.
    - destruct (blank (sp_prompt p)); [done|]. destruct (blank (sp_cwd p)); [done|].
      by destruct opening.
    - destruct (blank (rp_prompt p)); [done|]. destruct (blank (rp_sessionId p)); [done|].
      destruct (selectRunBySession _ _); [|done]. by destruct opening.
    - destruct (blank (rp_prompt p)); [done|]. destruct (blank (rp_sessionId p)); [done|].
      destruct (selectRunBySession _ _); [|done]. by destruct opening. }
  destruct (begin req runId opening w) as [[e|f|r] w1]; [done| |].
  - pose proof (consume_call script f w1) as Hc.
    destruct (consume script f w1) as [[f'|r] w2]; [done|].
    intros [= <- <-]. destruct Hc as (_ & -> & ->). done.
  - by intros [= <- <-].
Qed.

End RegistryFacts.

(** ** What the calls leave behind *)

Module RunReads.
Import Executor StreamRecorder RunManager RunManagerSpec RunManagerFacts.
Import CallSpec CallFacts Schedule RegistrySpec RegistryFacts Queries QuerySpec QueryFacts.
Import Samples.





(** X12.  What a call returns is what it has written: when [start],
    [resume] or [fork] returns a result for a run that had no row
    before, the row of the run carries the session id, the parent, the
    mode, the status and the duration of the result; its [resultType]
    is the subtype of the result message, and its [resultJson] is that
    message, or the error when the call failed. *)
Theorem returned_result_matches_row (req : Request) (runId : string) (opening : Outcome)
    (script : list NextResult) (w w' : World) (res : RunResult) :
  getRun runId (db (host w)) = None ->
  perform req runId opening script w = (Returns res, w') ->
  res_runId res = runId /\
  exists row,
    getRun runId (db (host w')) = Some row /\
    run_sessionId row = res_sessionId res /\
    run_parentSessionId row = res_parentSessionId res /\
    run_mode row = res_mode res /\
    run_status row = res_status res /\
    run_durationMs row = Some (res_durationMs res) /\
    run_resultType row = res_result res ≫= subtype /\
    run_resultJson row =
      match res_error res with
      | Some e => Some (JsonError e)
      | None => JsonMessage <$> res_result res
      end.
Proof.
  intros Hfresh Hp.
  destruct (perform_matches _ _ _ _ _ _ _ Hfresh Hp) as [(row & Hrow & H) Hid].
  split; [done|]. exists row. by rewrite <- Hid.
Qed.

(** A fresh run with an init message and a result. *)
Lemma returned_result_matches_row_witness :
  let ok := [Settled (Some (initMessage "s1")) false;
             Settled (Some (resultMessage "s1" "success")) false;
             Settled None true] in
  let p := perform (ReqStart sampleStart) "r1" Resolved ok (boot 0 []) in
  exists res w',
    (getRun "r1" (db (host (boot 0 []))) = None /\ p = (Returns res, w')) /\
    res_runId res = "r1" /\
    exists row,
      getRun "r1" (db (host w')) = Some row /\
      run_sessionId row = res_sessionId res /\
      run_parentSessionId row = res_parentSessionId res /\
      run_mode row = res_mode res /\
      run_status row = res_status res /\
      run_durationMs row = Some (res_durationMs res) /\
      run_resultType row = res_result res ≫= subtype /\
      run_resultJson row =
        match res_error res with
        | Some e => Some (JsonError e)
        | None => JsonMessage <$> res_result res
        end.
Proof.
  intros ok p.
  destruct p as [[e|f|res] w'] eqn:Hp; [by vm_compute in Hp|by vm_compute in Hp|].
  exists res, w'. split; [by split|].
  exact (returned_result_matches_row (ReqStart sampleStart) "r1" Resolved ok (boot 0 []) w' res
           eq_refl Hp).
Defined.



(** X14.  A run that has returned can be found through its session:
    when [start], [resume] or [fork] returns a result for a run that had
    no row before, [getSessions] lists the session id of the result, and
    for [resume] and [fork] alike [getForkedSessions] lists it among the
    forks of the session the call named. *)
Theorem returned_run_is_listed (req : Request) (runId : string) (opening : Outcome)
    (script : list NextResult) (w w' : World) (res : RunResult) :
  getRun runId (db (host w)) = None ->
  perform req runId opening script w = (Returns res, w') ->
  res_sessionId res ∈ ss_sessionId <$> getSessions (db (host w')) /\
  match req with
  | ReqStart _ => True
  | ReqResume params | ReqFork params =>
      res_sessionId res ∈
        ss_sessionId <$> getForkedSessions (rp_sessionId params) (db (host w'))
  end.
Proof.
  intros Hfresh Hp.
  destruct (perform_matches _ _ _ _ _ _ _ Hfresh Hp)
    as [(row & Hrow & Hsid & Hpar & _) Hid].
  destruct (perform_call _ _ _ _ _ _ _ Hp) as [_ Hparent].
  apply getRun_elem in Hrow as [Hin _].
  split.
  - apply getSessions_ids. rewrite <- Hsid. by apply list_elem_of_fmap_2.
  - assert (Hfork : forall p, res_parentSessionId res = Some (rp_sessionId p) ->
              res_sessionId res ∈
                ss_sessionId <$> getForkedSessions (rp_sessionId p) (db (host w'))).
    { intros p Hp'. rewrite getForkedSessions_ids. apply newSet_elem_of.
      rewrite <- Hsid. apply list_elem_of_fmap_2, list_elem_of_filter.
      split; [congruence|done]. }
    destruct req as [p|p|p]; [done|by apply Hfork..].
Qed.

(** The session "s1" is resumed; the provider names the new session
    "s2", which is then listed among the forks of "s1". *)
Lemma returned_run_is_listed_witness :
  let w := (perform (ReqStart sampleStart) "r1" Resolved
              [Settled (Some (initMessage "s1")) false; Settled None true] (boot 0 [])).2 in
  let p := perform (ReqResume (sampleSession "s1" "and 3+3?")) "r2" Resolved
             [Settled (Some (initMessage "s2")) false; Settled None true] w in
  exists res w',
    (getRun "r2" (db (host w)) = None /\ p = (Returns res, w')) /\
    res_sessionId res = "s2" /\
    res_sessionId res ∈ ss_sessionId <$> getSessions (db (host w')) /\
    res_sessionId res ∈ ss_sessionId <$> getForkedSessions "s1" (db (host w')).
Proof.
  intros w p.
  destruct p as [[e|f|res] w'] eqn:Hp; [by vm_compute in Hp|by vm_compute in Hp|].
  exists res, w'. split; [by split|].
  split.
  - pose proof Hp as Hq. vm_compute in Hq. by injection Hq as <- _.
  - exact (returned_run_is_listed (ReqResume (sampleSession "s1" "and 3+3?")) "r2" Resolved
             _ w w' res eq_refl Hp).
Defined.

End RunReads.

(** ** The stream of [execute] *)

Module GateFacts.
Import Executor ExecutorSpec ExecutorFacts GateSpec.

Lemma inputOf_snoc hist e :
  inputOf (hist ++ [e]) = inputOf hist ++ match e with Pulled _ _ => [] | _ => [e] end.
Proof. unfold inputOf. rewrite omap_app. f_equal. by destruct e. Qed.

Lemma Prompted_promptNext g : Prompted g -> Prompted (promptNext g).
Proof.
  unfold Prompted, promptNext. intros H.
  destruct (promptState g) eqn:Hs; simpl; rewrite ?Hs; try done.
  - by rewrite inputOf_snoc, H.
  - destruct (receivedResult g); simpl; [|done]. by rewrite inputOf_snoc, H.
Qed.

Lemma Prompted_done g : Prompted g -> Prompted (done g).
Proof.
  unfold Prompted, done. intros H.
  destruct (promptState g) eqn:Hs; simpl; rewrite ?Hs; try done.
  by rewrite inputOf_snoc, H.
Qed.

Lemma Prompted_pull r g h : Prompted g -> Prompted (pull r g h).1.1.
Proof.
  intros H. unfold pull. destruct (controller g); [|done..].
  destruct r as [value isDone|error]; [|done].
  set (g0 := observe (Pulled value isDone) (promptState g) g).
  assert (H0 : Prompted g0).
  { unfold Prompted, g0. simpl. by rewrite inputOf_snoc, app_nil_r. }
  assert (H1 : Prompted (if isResult value then done g0 else g0)).
  { destruct (isResult value); [by apply Prompted_done|done]. }
  destruct isDone; [done|]. by destruct value.
Qed.

Lemma userMessage_step gh e : userMessage (gateStep gh e).1 = userMessage gh.1.
Proof.
  destruct gh as [g h]. destruct e as [|r]; simpl.
  - unfold promptNext. destruct (promptState g); try done.
    by destruct (receivedResult g).
  - unfold pull. destruct (controller g); [|done..].
    destruct r as [value isDone|error]; [|done].
    destruct isDone, value as [m|]; simpl; try done;
      destruct (bool_decide (type m = "result")); try done;
      unfold done; simpl; by destruct (promptState g).
Qed.





End GateFacts.

Module GateReads.
Import Executor ExecutorSpec ExecutorFacts GateSpec GateFacts.

(** X15.  The provider is given exactly one user message: whatever the
    provider does with a call of [execute], what it has seen on its
    input channel is nothing (before it asks), the one user message
    built from the prompt and the images (while the generator waits),
    or that message followed by the end of the input (once the
    generator has completed); never a second message, never a second
    end. *)
Theorem provider_input_is_one_message (params : ExecuteParams) (h : Host)
    (es : list GateStep) :
  let g := (gateRun es ((execute params).1, h)).1 in
  let m :=
    {| content :=
         TextBlock (ep_prompt params) ::
         map (fun img => ImageBlock (mediaType img) (data img)) (ep_images params) |} in
  inputOf (history g) =
    match promptState g with
    | NotStarted => []
    | AtYield | AtAwait => [InputMessage m]
    | Finished => [InputMessage m; InputEnd]
    end.
Proof.
  intros g m. subst g m.
  assert (H : Prompted (gateRun es ((execute params).1, h)).1 /\
              userMessage (gateRun es ((execute params).1, h)).1 =
                userMessage (execute params).1).
  { unfold gateRun.
    apply (foldl_preserves gateStep
             (fun gh => Prompted gh.1 /\ userMessage gh.1 = userMessage (execute params).1)).
    - by split.
    - intros [g h'] e [Hp Hu]. split.
      + destruct e as [|r]; simpl.
        * by apply Prompted_promptNext.
        * pose proof (Prompted_pull r g h' Hp) as Hr.
          by destruct (pull r g h') as [[g' it] h''].
      + by rewrite userMessage_step. }
  destruct H as [Hp Hu]. unfold Prompted in Hp. by rewrite Hu in Hp.
Qed.


End GateReads.

(** ** The HTTP layer *)

Module ApiFacts.
Import Executor StreamRecorder RunManager RunManagerSpec RunManagerFacts.
Import CallSpec CallFacts Schedule RegistrySpec RegistryFacts Queries QuerySpec QueryFacts.
Import Errors Schema Api.


Lemma trimStart_empty s : trimStart s = "" <-> blank s = true.
Proof.
  induction s as [|c s IH]; [done|]. simpl.
  destruct (isSpace c) eqn:Hc; [done|]. done.
Qed.








Lemma imageSchema_refuses path v issues : imageSchema path v = inl issues -> issues <> [].
Proof.
  unfold imageSchema. destruct v as [| |img]; [by intros [= <-]..|].
  destruct (ri_mediaType img) as [| |m]; destruct (ri_data img) as [| |d];
    try (by intros [= <-]).
  all: try destruct (decide (m ∈ mediaTypes)).
  all: try destruct (len d <? 1)%Z.
  all: try destruct (MAX_IMAGE_DATA_LENGTH <? len d)%Z.
  all: try (by intros [= <-]).
  all: try done.
Qed.












End ApiFacts.

(** ** What the routes answer *)

Module ApiReads.
Import Executor StreamRecorder RunManager RunManagerSpec RunManagerFacts.
Import CallSpec CallFacts Schedule RegistrySpec RegistryFacts Queries QuerySpec QueryFacts.
Import Errors Schema Api ApiFacts Samples.






(** X21.  Looking up what does not exist: [GET /runs/:runId] answers
    404 exactly when no row has the id, and [GET /sessions/:id] exactly
    when no run carries the session id, while the list routes do not
    know 404: for a run without recorded rows [GET /runs/:runId/messages]
    answers 200 with an empty list, and for a session without runs so
    do [GET /sessions/:id/runs] and [GET /sessions/:id/messages]. *)
Theorem lookups_of_unknown_ids (id : string) (w : World) :
  (resp_status (getRunById id w) = 404%Z <-> getRun id (db (host w)) = None) /\
  (resp_status (getSessionById id w) = 404%Z <->
     id ∉ run_sessionId <$> runTable (db (host w))) /\
  (Forall (fun r => rm_runId r <> id) (runMessageTable (db (host w))) ->
   getRunMessagesById id w = json (BodyMessages [])) /\
  (id ∉ run_sessionId <$> runTable (db (host w)) ->
   getSessionRunsById id w = json (BodyRuns []) /\
   getSessionMessagesById id w = json (BodyMessages [])).
Proof.
  split_and!.
  - unfold getRunById. by destruct (getRun id (db (host w))).
  - unfold getSessionById. rewrite <- getSession_None.
    by destruct (getSession id (db (host w))).
  - intros Hnone. unfold getRunMessagesById, getRunMessages, getMessages.
    rewrite (filter_and_l (fun r => rm_runId r = id)), (filter_none _ _ Hnone). done.
  - intros Hnone. apply ofSession_nil in Hnone.
    unfold getSessionRunsById, getSessionMessagesById, getSessionMessages, getSessionRuns.
    unfold ofSession in Hnone. by rewrite Hnone.
Qed.



End ApiReads.

(** ** The threshold of the logger *)

Module LoggerReads.
Import Logger.

(** X22.  The level threshold of the logger.  A level that is written
    carries every higher level with it; with LOG_LEVEL unset or empty
    the threshold is info; under each of the four level names errors
    are written; and under any other value of LOG_LEVEL nothing is
    written at all, errors included. *)
Theorem log_level_is_a_threshold (env : option string) :
  (forall l1 l2 n1 n2,
     LOG_LEVELS (levelName l1) = Some n1 -> LOG_LEVELS (levelName l2) = Some n2 ->
     n1 <= n2 -> shouldLog env l1 = true -> shouldLog env l2 = true) /\
  (env = None \/ env = Some "" ->
   shouldLog env debug = false /\ shouldLog env info = true /\
   shouldLog env warn = true /\ shouldLog env error = true) /\
  (forall l, currentLevel env = levelName l -> shouldLog env error = true) /\
  ((forall l, currentLevel env <> levelName l) -> forall l, shouldLog env l = false).
Proof.
  split_and!.
  - intros l1 l2 n1 n2 H1 H2 Hle. unfold shouldLog. rewrite H1, H2.
    destruct (LOG_LEVELS (currentLevel env)) as [c|]; [|done].
    intros Hc%Nat.leb_le. apply Nat.leb_le. lia.
  - by intros [-> | ->].
  - intros l Hl. unfold shouldLog. rewrite Hl. by destruct l.
  - intros Hno l. unfold shouldLog.
    destruct (LOG_LEVELS (currentLevel env)) as [c|] eqn:Hc; [|by destruct l].
    unfold LOG_LEVELS in Hc. repeat case_decide; try done.
    + by destruct (Hno debug).
    + by destruct (Hno info).
    + by destruct (Hno warn).
    + by destruct (Hno error).
Qed.

End LoggerReads.

(** ** The state holders *)

Module StateFacts.

Import StateSpec.

Section Facts.

Context {T : Type} (empty : T).

Context (init : nat -> State.InitResult (T:=T)).

Lemma Settled_create : Settled (State.create (T:=T)).
Proof. done. Qed.

Lemma Settled_tryInitSync s : Settled s -> Settled (State.tryInitSync init s).2.
Proof.
  unfold Settled, State.tryInitSync. intros H.
  destruct (State.initialized s) eqn:Hi; simpl; [by rewrite Hi|].
  destruct (State.initPromise s); simpl; [by rewrite Hi|].
  destruct (init (State.calls s)); simpl; rewrite ?Hi; eauto.
Qed.

Lemma Settled_set u s : Settled s -> Settled (State.set empty init u s).
Proof.
  intros H. apply Settled_tryInitSync in H. unfold State.set.
  unfold Settled in *.
  destruct (State.state (State.tryInitSync init s).2) eqn:Hs; simpl; [|eauto].
  destruct (State.initialized _); [eauto|done].
Qed.

Lemma Settled_getAsync s : Settled s -> Settled (State.getAsync init s).2.
Proof.
  intros H. unfold State.getAsync, State.ensureInitialized.
  pose proof (Settled_tryInitSync s H) as H'.
  destruct (State.tryInitSync init s) as [ok s']. simpl in H'.
  destruct (State.initialized s), (State.state s); try done;
    destruct ok, (State.state s'); try done; by destruct (State.initPromise s').
Qed.

Lemma Settled_after s e : Settled s -> Settled (State.after empty init s e).
Proof.
  intros H. destruct e as [[| u | |]| |r]; simpl.
  - by apply Settled_tryInitSync.
  - by apply Settled_set.
  - done.
  - done.
  - by apply Settled_getAsync.
  - unfold Settled. simpl. eauto.
Qed.

Lemma Settled_run es : Settled (foldl (State.after empty init) State.create es).
Proof.
  induction es as [|e es IH] using rev_ind; [done|].
  rewrite foldl_snoc. by apply Settled_after.
Qed.

End Facts.

Section Pure.

Context {T : Type} (empty v0 : T).

Lemma sinceReset_snoc (cs : list (State.Call (T:=T))) c :
  State.sinceReset (cs ++ [c]) =
  match c with
  | State.CallSet u => State.sinceReset cs ++ [u]
  | State.CallReset => []
  | _ => State.sinceReset cs
  end.
Proof. unfold State.sinceReset. by rewrite foldl_snoc. Qed.

Lemma updated_snoc (v : T) us u : State.updated v (us ++ [u]) = u (State.updated v us).
Proof. unfold State.updated. by rewrite foldl_snoc. Qed.

Lemma create_holds cs :
  let s := foldl (State.called empty (fun _ => State.Value v0)) State.create cs in
  Holds v0 (State.state s) (State.initialized s) (State.sinceReset cs) /\
  State.initPromise s = false.
Proof.
  induction cs as [|c cs IH] using rev_ind; [split; [left|]; done|].
  rewrite foldl_snoc, sinceReset_snoc. simpl in *.
  destruct IH as [IH Hp].
  set (s := foldl _ _ cs) in *. clearbody s.
  destruct s as [st i p n]. simpl in *. subst p.
  destruct c as [|u| |]; simpl.
  - unfold State.tryInitSync. simpl.
    destruct IH as [(-> & -> & ->)|[-> ->]]; simpl; split; try done; by right.
  - unfold State.set, State.tryInitSync. simpl.
    destruct IH as [(-> & -> & ->)|[-> ->]]; simpl; split; try done;
      right; by rewrite ?updated_snoc.
  - done.
  - split; [by left|done].
Qed.

Lemma sync_holds s0 cs :
  Holds v0 (StateV2.state s0) (StateV2.initialized s0) [] ->
  let s := foldl (StateV2.called (fun _ => Some v0)) s0 cs in
  Holds v0 (StateV2.state s) (StateV2.initialized s) (State.sinceReset cs).
Proof.
  intros H0. induction cs as [|c cs IH] using rev_ind; [done|].
  rewrite foldl_snoc, sinceReset_snoc. simpl in *.
  set (s := foldl _ _ cs) in *. clearbody s.
  destruct s as [st i n]. simpl in *.
  destruct c as [|u| |]; simpl.
  - unfold StateV2.get, StateV2.ensureInit. simpl.
    destruct IH as [(-> & -> & ->)|[-> ->]]; simpl; by right.
  - unfold StateV2.set, StateV2.ensureInit. simpl.
    destruct IH as [(-> & -> & ->)|[-> ->]]; simpl; right; by rewrite ?updated_snoc.
  - done.
  - by left.
Qed.

Lemma sync_get s us :
  Holds v0 (StateV2.state s) (StateV2.initialized s) us ->
  (StateV2.get (fun _ => Some v0) s).1 = Some (State.updated v0 us).
Proof.
  unfold StateV2.get, StateV2.ensureInit.
  by intros [(-> & _ & ->)|[-> ->]].
Qed.

End Pure.

End StateFacts.

Module StateReads.

Import StateSpec StateFacts.

(** X23. With an initializer that returns the same value at every
    call, [get] returns what the updaters given to [set] since the last
    [reset] make of that value, applied in the order of the calls:
    after any calls of [get], [set], [isInitialized] and [reset], on a
    holder of [State.create], of [createSyncState] and of
    [StateV2.create] alike. *)
Theorem holders_apply_updaters_since_reset {T : Type} (empty v0 : T)
    (cs : list (State.Call (T:=T))) :
  let init := fun _ : nat => State.Value v0 in
  let initV2 := fun _ : nat => Some v0 in
  let want := State.updated v0 (State.sinceReset cs) in
  (State.get empty init (foldl (State.called empty init) State.create cs)).1 = want /\
  (StateV2.get initV2 (foldl (StateV2.called initV2) StateV2.createSyncState cs)).1
    = Some want /\
  exists s0,
    StateV2.createV2 initV2 = Some s0 /\
    (StateV2.get initV2 (foldl (StateV2.called initV2) s0 cs)).1 = Some want.
Proof.
  intros init initV2 want. split_and!.
  - destruct (create_holds empty v0 cs) as [H Hp]. simpl in H, Hp.
    fold init in H, Hp. unfold State.get, State.tryInitSync.
    destruct H as [(-> & _ & Hus)|[-> Hs]].
    + rewrite Hp. simpl. subst want. by rewrite Hus.
    + simpl. by rewrite Hs.
  - apply sync_get, sync_holds. by left.
  - eexists. split; [done|]. apply sync_get, sync_holds. by right.
Qed.


(** X25. While a holder of [State.create] has no state and its
    initializer gives none (its promise is pending, or it throws),
    [get] returns the empty object and leaves the holder
    uninitialized.  A [set] then starts from the empty object and
    marks the holder initialized: [get] and [getAsync] return the
    updated empty object without running the initializer again, and if
    the promise of the initializer fulfils afterwards its value
    replaces that state. *)
Theorem set_without_state_starts_from_empty {T : Type} (empty : T)
    (init : nat -> State.InitResult) (es : list State.Event) (u : T -> T) (r : T) :
  let s := foldl (State.after empty init) State.create es in
  (State.tryInitSync init s).1 = false ->
  let s1 := State.set empty init u s in
  (State.get empty init s).1 = empty /\
  State.isInitialized (State.get empty init s).2 = false /\
  State.isInitialized s1 = true /\
  State.get empty init s1 = (u empty, s1) /\
  State.getAsync init s1 = (State.Now (u empty), s1) /\
  (State.get empty init (State.fulfilled r s1)).1 = r.
Proof.
  intros s. pose proof (Settled_run empty init es) as H. fold s in H. clearbody s.
  unfold Settled in H. intros Hno s1. subst s1.
  unfold State.get, State.set, State.getAsync, State.ensureInitialized, State.isInitialized.
  unfold State.tryInitSync in *.
  destruct s as [st i p n]. simpl in *.
  destruct i; [done|]. subst st.
  destruct p; simpl; [done|].
  destruct (init n); simpl in *; done.
Qed.

(** A [get] has started an initializer that returns a promise; then a
    [set] of the successor on numbers, and the promise fulfils with 7. *)
Lemma set_without_state_starts_from_empty_witness :
  let init := fun _ : nat => State.Promise (T:=nat) in
  let s := foldl (State.after 0 init) State.create [State.Called State.CallGet] in
  let s1 := State.set 0 init S s in
  (State.tryInitSync init s).1 = false /\
  (State.get 0 init s).1 = 0 /\
  State.isInitialized s1 = true /\
  (State.get 0 init s1).1 = 1 /\
  (State.get 0 init (State.fulfilled 7 s1)).1 = 7.
Proof.
  intros init s s1.
  assert (H : (State.tryInitSync init s).1 = false) by reflexivity.
  pose proof (set_without_state_starts_from_empty 0 init [State.Called State.CallGet] S 7 H)
    as (H1 & _ & H3 & H4 & _ & H6).
  split_and!; [exact H|exact H1|exact H3|exact (f_equal fst H4)|exact H6].
Defined.

End StateReads.
